(** * vue-form-controller: the validator, the control factory and the form
    state manager, embedded in Rocq.

    The development follows the current sources of the library:
    - [validations/index.ts]     ([getFieldErrors]),
    - the [control] module       ([createControl]),
    - [composables/form.ts]      ([useForm] and the operations it returns, in
      the version whose [handleSubmit] takes [onError] and whose [setValue]
      takes options).

    JavaScript values are trees; the objects that the code shares by
    reference (the caller's default values, the form values) live in a store
    and are named by their location.  Rule maps and error maps are finite
    maps keyed by path strings.

    What the embedding leaves out: numbers other than integers; values
    other than JSON-like trees (dates, functions, cyclic objects), so that a
    value stored below the form values is stored by value; custom validators
    and updater functions with side effects; the scheduling of the reactive
    framework, whose refs and computed values are read and written here as
    plain state. *)

From Stdlib Require Import Ascii.
From stdpp Require Import gmap strings list fin_maps pretty.

Set Warnings "-register-all".
Open Scope Z_scope.

(** ** JavaScript values *)

(** Form values are JSON-like trees.  Numbers are the integers (printed in
    decimal, as JavaScript prints every integer below 10^21); strings are
    sequences of code units. *)
Inductive value : Type :=
  | VUndefined
  | VNull
  | VBool (b : bool)
  | VNum (n : Z)
  | VStr (s : string)
  | VArr (items : list value)
  | VObj (fields : gmap string value).

Global Instance value_inhabited : Inhabited value := populate VUndefined.

Global Instance value_eq_dec : EqDecision value.
Proof.
  refine (fix go (a b : value) {struct a} : Decision (a = b) :=
    let _ : EqDecision value := @go in
    match a, b with
    | VUndefined, VUndefined => left _
    | VNull, VNull => left _
    | VBool x, VBool y => cast_if (decide (x = y))
    | VNum x, VNum y => cast_if (decide (x = y))
    | VStr x, VStr y => cast_if (decide (x = y))
    | VArr x, VArr y => cast_if (decide (x = y))
    | VObj x, VObj y => cast_if (decide (x = y))
    | _, _ => right _
    end); congruence.
Defined.

(** [x == null] *)
Definition isNullish (v : value) : bool :=
  match v with
  | VUndefined | VNull => true
  | _ => false
  end.

(** [Array.prototype.join(",")] on already printed elements. *)
Definition joinComma (parts : list string) : string := String.concat "," parts.

(** The ToString conversion.  An array prints its elements separated by
    commas, a nullish element printing as the empty string; a plain object
    prints as [[object Object]]. *)
Fixpoint toString (v : value) : string :=
  match v with
  | VUndefined => "undefined"
  | VNull => "null"
  | VBool true => "true"
  | VBool false => "false"
  | VNum n => pretty n
  | VStr s => s
  | VArr items =>
      joinComma (map (fun x => if isNullish x then "" else toString x) items)
  | VObj _ => "[object Object]"
  end.

(** [value?.toString()]: undefined for a nullish receiver. *)
Definition optToString (v : value) : option string :=
  if isNullish v then None else Some (toString v).

(** ** Regular expressions

    A regular expression object is a body with optional [^] and [$] anchors.
    [RVoid] matches nothing; it only arises while matching. *)
Inductive re : Type :=
  | RVoid
  | REps
  | RChr (c : ascii)
  | RRange (lo hi : ascii)
  | RCat (r1 r2 : re)
  | RAlt (r1 r2 : re)
  | RStar (r : re).

Definition RPlus (r : re) : re := RCat r (RStar r).

Record RegExp : Type := mkRegExp {
  anchoredStart : bool;
  body : re;
  anchoredEnd : bool
}.

Fixpoint nullable (r : re) : bool :=
  match r with
  | RVoid => false
  | REps => true
  | RChr _ => false
  | RRange _ _ => false
  | RCat r1 r2 => nullable r1 && nullable r2
  | RAlt r1 r2 => nullable r1 || nullable r2
  | RStar _ => true
  end.

Definition inRange (lo hi a : ascii) : bool :=
  ((nat_of_ascii lo <=? nat_of_ascii a)%nat
   && (nat_of_ascii a <=? nat_of_ascii hi)%nat)%bool.

Fixpoint deriv (a : ascii) (r : re) : re :=
  match r with
  | RVoid => RVoid
  | REps => RVoid
  | RChr c => if Ascii.eqb a c then REps else RVoid
  | RRange lo hi => if inRange lo hi a then REps else RVoid
  | RCat r1 r2 =>
      if nullable r1
      then RAlt (RCat (deriv a r1) r2) (deriv a r2)
      else RCat (deriv a r1) r2
  | RAlt r1 r2 => RAlt (deriv a r1) (deriv a r2)
  | RStar r1 => RCat (deriv a r1) (RStar r1)
  end.

(** Does some prefix of [s] (the whole of [s] when [toEnd]) match [r]? *)
Fixpoint matchesFrom (toEnd : bool) (r : re) (s : string) : bool :=
  match s with
  | EmptyString => nullable r
  | String a rest =>
      (negb toEnd && nullable r) || matchesFrom toEnd (deriv a r) rest
  end.

(** Does a match start at some position of [s]? *)
Fixpoint searchFrom (toEnd : bool) (r : re) (s : string) : bool :=
  matchesFrom toEnd r s ||
  match s with
  | EmptyString => false
  | String _ rest => searchFrom toEnd r rest
  end.

(** [regexp.test(s)] on a fresh regular expression object. *)
Definition RegExp_test (p : RegExp) (s : string) : bool :=
  if anchoredStart p
  then matchesFrom (anchoredEnd p) (body p) s
  else searchFrom (anchoredEnd p) (body p) s.

(** The strings that a body matches as a whole. *)
Inductive matches : re -> string -> Prop :=
  | MEps : matches REps ""
  | MChr c : matches (RChr c) (String c "")
  | MRange lo hi a : inRange lo hi a = true -> matches (RRange lo hi) (String a "")
  | MCat r1 r2 s1 s2 :
      matches r1 s1 -> matches r2 s2 -> matches (RCat r1 r2) (s1 +:+ s2)
  | MAltL r1 r2 s : matches r1 s -> matches (RAlt r1 r2) s
  | MAltR r1 r2 s : matches r2 s -> matches (RAlt r1 r2) s
  | MStarNil r : matches (RStar r) ""
  | MStarCons r s1 s2 :
      matches r s1 -> matches (RStar r) s2 -> matches (RStar r) (s1 +:+ s2).

(** A pattern without metacharacters, as a regular expression. *)
Fixpoint literal (s : string) : re :=
  match s with
  | EmptyString => REps
  | String c rest => RCat (RChr c) (literal rest)
  end.

Definition literalRegExp (s : string) : RegExp := mkRegExp false (literal s) false.

(** ** Rules *)

(** [pattern?: RegExp | string] *)
Inductive Pattern : Type :=
  | PRegExp (r : RegExp)
  | PString (source : string).

(** [ControlRule<T>].  A field that is not set is [None].  The custom
    validator receives the value and the snapshot of the form values and
    returns a list of messages or undefined. *)
Record ControlRule : Type := mkRule {
  required : option bool;
  minLength : option Z;
  maxLength : option Z;
  validate : option (value -> value -> option (list string));
  pattern : option Pattern
}.

Section Library.

(** ** The validator ([validations/index.ts]) *)

(** [new RegExp(source)] for a pattern given as a string: the parser of the
    JavaScript engine. *)
Variable compile : string -> RegExp.

(** [new RegExp(pattern)] *)
Definition RegExp_new (p : Pattern) : RegExp :=
  match p with
  | PRegExp r => r
  | PString source => compile source
  end.

(** Truthiness of the optional fields of a rule. *)
Definition truthyBool (b : option bool) : bool :=
  match b with
  | Some true => true
  | _ => false
  end.

Definition truthyNum (n : option Z) : bool :=
  match n with
  | Some n => negb (n =? 0)
  | None => false
  end.

Definition truthyPattern (p : option Pattern) : bool :=
  match p with
  | Some (PRegExp _) => true
  | Some (PString source) => negb (String.eqb source "")
  | None => false
  end.

(** [controlRules.validate?.(value, fieldValues)] *)
Definition customValidation (controlRules : ControlRule) (v fieldValues : value)
  : option (list string) :=
  match validate controlRules with
  | Some f => f v fieldValues
  | None => None
  end.

(** [value?.toString()?.length || 0] *)
Definition valueLength (v : value) : nat :=
  match optToString v with
  | Some s => String.length s
  | None => 0%nat
  end.

(** The argument of [test] is converted to a string, so that a missing
    one is read as the text [undefined]. *)
Definition testInput (v : value) : string :=
  match optToString v with
  | Some s => s
  | None => "undefined"
  end.

Definition msgRequired : string := "Field is required!".
Definition msgMaxLength (n : Z) : string :=
  "The field may not be longer than " +:+ pretty n +:+ " characters!".
Definition msgMinLength (n : Z) : string :=
  "The field may not be shorter than " +:+ pretty n +:+ " characters!".
Definition msgPattern : string := "The field did not match the expected pattern!".

Definition maxLengthFails (controlRules : ControlRule) (len : nat) : bool :=
  truthyNum (maxLength controlRules)
  && bool_decide (default 0 (maxLength controlRules) < Z.of_nat len).

Definition minLengthFails (controlRules : ControlRule) (len : nat) : bool :=
  truthyNum (minLength controlRules)
  && bool_decide (Z.of_nat len < default 0 (minLength controlRules)).

Definition patternFails (controlRules : ControlRule) (v : value) : bool :=
  truthyPattern (pattern controlRules)
  && match pattern controlRules with
     | Some p => negb (RegExp_test (RegExp_new p) (testInput v))
     | None => false
     end.

(** [errors.push(msg)] under a condition. *)
Definition pushIf (c : bool) (msg : string) (errors : list string) : list string :=
  if c then errors ++ [msg] else errors.

Definition getFieldErrors (v : value) (controlRules : option ControlRule)
    (fieldValues : value) : list string :=
  match controlRules with
  | None => []
  | Some controlRules =>
      match customValidation controlRules v fieldValues with
      | Some customErrors => customErrors
      | None =>
          let len := valueLength v in
          let notFilled := truthyBool (required controlRules) && (len =? 0)%nat in
          let errors := [] in
          if notFilled then pushIf true msgRequired errors
          else
            let errors :=
              pushIf (maxLengthFails controlRules len)
                     (msgMaxLength (default 0 (maxLength controlRules))) errors in
            let errors :=
              pushIf (minLengthFails controlRules len)
                     (msgMinLength (default 0 (minLength controlRules))) errors in
            let errors := pushIf (patternFails controlRules v) msgPattern errors in
            errors
      end
  end.

(** ** Deep paths (the helpers [get], [set], [isEqual], [cloneDeep])

    Paths are the strings of [GetKeys<T>]: object keys and array indices
    separated by dots, an index also written in brackets.  Keys are the
    maximal runs of characters other than [.], [[] and []]; the keys of the
    form's objects are taken to be free of these characters and not empty.
    Objects have their own data properties only: nothing is inherited. *)

Definition isSeparator (c : ascii) : bool :=
  (Ascii.eqb c "." || Ascii.eqb c "[" || Ascii.eqb c "]")%bool.

Definition flushKey (cur : string) : list string :=
  if String.eqb cur "" then [] else [cur].

Fixpoint splitPath (cur : string) (s : string) : list string :=
  match s with
  | EmptyString => flushKey cur
  | String c rest =>
      if isSeparator c
      then flushKey cur ++ splitPath "" rest
      else splitPath (cur +:+ String c "") rest
  end.

Definition stringToPath (name : string) : list string := splitPath "" name.

Definition digitValue (c : ascii) : option nat :=
  let n := nat_of_ascii c in
  if ((48 <=? n)%nat && (n <=? 57)%nat)%bool then Some (n - 48)%nat else None.

Fixpoint parseDigits (acc : nat) (s : string) : option nat :=
  match s with
  | EmptyString => Some acc
  | String c rest =>
      match digitValue c with
      | Some d => parseDigits (10 * acc + d)%nat rest
      | None => None
      end
  end.

(** The array index written by a key, if the key is a decimal numeral
    without leading zeros. *)
Definition indexOfKey (key : string) : option nat :=
  match key with
  | EmptyString => None
  | String "0" EmptyString => Some 0%nat
  | String "0" _ => None
  | _ => parseDigits 0 key
  end.

Definition isIndex (key : string) : bool :=
  match indexOfKey key with
  | Some _ => true
  | None => false
  end.

Definition isObject (v : value) : bool :=
  match v with
  | VArr _ | VObj _ => true
  | _ => false
  end.

(** [object[key]]: an absent key and an index out of range read as
    undefined.  The paths of [GetKeys<T>] stop at primitives and address the
    elements of an array only, so the properties of a primitive and the
    other properties of an array are left out. *)
Definition prop (o : value) (key : string) : value :=
  match o with
  | VObj fields => default VUndefined (fields !! key)
  | VArr items =>
      match indexOfKey key with
      | Some i => default VUndefined (items !! i)
      | None => VUndefined
      end
  | _ => VUndefined
  end.

(** [items[i] = v]: writing past the end extends the array, the gap
    reading as undefined. *)
Definition arrayAssign (items : list value) (i : nat) (v : value) : list value :=
  if (i <? length items)%nat
  then <[i := v]> items
  else items ++ replicate (i - length items) VUndefined ++ [v].

(** [object[key] = v].  Arrays hold their elements only: a key that is not
    an index leaves the array as it is. *)
Definition assign (o : value) (key : string) (v : value) : value :=
  match o with
  | VObj fields => VObj (<[key := v]> fields)
  | VArr items =>
      match indexOfKey key with
      | Some i => VArr (arrayAssign items i v)
      | None => o
      end
  | _ => o
  end.

Fixpoint baseGet (o : value) (path : list string) : value :=
  match path with
  | [] => o
  | key :: rest => if isNullish o then VUndefined else baseGet (prop o key) rest
  end.

(** [get(object, name)] *)
Definition get (o : value) (name : string) : value :=
  match stringToPath name with
  | [] => VUndefined
  | path => baseGet o path
  end.

(** The container found or created below [key] on the way to [next]. *)
Definition nestedFor (o : value) (key next : string) : value :=
  let objValue := prop o key in
  if isObject objValue then objValue
  else if isIndex next then VArr [] else VObj ∅.

Fixpoint baseSet (o : value) (path : list string) (v : value) : value :=
  match path with
  | [] => o
  | key :: rest =>
      match rest with
      | [] => assign o key v
      | next :: _ => assign o key (baseSet (nestedFor o key next) rest v)
      end
  end.

(** [set(object, name, v)], as the new content of [object]. *)
Definition set (o : value) (name : string) (v : value) : value :=
  if isObject o then baseSet o (stringToPath name) v else o.

(** The comparison of two arrays by [isEqual]: the same length, and equal
    elements index by index. *)
Definition equalArrays (equalValues : value -> value -> bool)
  : list value -> list value -> bool :=
  fix go (xs ys : list value) {struct xs} : bool :=
    match xs, ys with
    | [], [] => true
    | x :: xs', y :: ys' => equalValues x y && go xs' ys'
    | _, _ => false
    end.

(** [isEqual(a, b)].  Two objects are equal when they have the same number
    of keys and every key of the first is a key of the second with an equal
    value, whatever the order of the keys. *)
Fixpoint isEqual (a b : value) {struct a} : bool :=
  match a, b with
  | VUndefined, VUndefined => true
  | VNull, VNull => true
  | VBool x, VBool y => bool_decide (x = y)
  | VNum x, VNum y => bool_decide (x = y)
  | VStr x, VStr y => bool_decide (x = y)
  | VArr xs, VArr ys => equalArrays isEqual xs ys
  | VObj fields, VObj others =>
      bool_decide (size fields = size others)
      && map_fold (λ key x acc,
                     acc && match others !! key with
                            | Some y => isEqual x y
                            | None => false
                            end) true fields
  | _, _ => false
  end.

(** [cloneDeep]: a copy of every container of the tree. *)
Fixpoint cloneDeep (v : value) : value :=
  match v with
  | VArr items => VArr (cloneDeep <$> items)
  | VObj fields => VObj (cloneDeep <$> fields)
  | _ => v
  end.

(** ** The store

    Objects that are shared by reference are cells of a store. *)
Definition deref (h : gmap nat value) (l : nat) : value :=
  default VUndefined (h !! l).

(** A new object. *)
Definition alloc (v : value) (h : gmap nat value) : nat * gmap nat value :=
  let l := fresh (dom h) in (l, <[l := v]> h).

(** ** The control factory ([control/index.ts]) *)

Inductive ValidationMode : Type := OnBlur | OnChange | OnSubmit | All.

Global Instance ValidationMode_eq_dec : EqDecision ValidationMode.
Proof. solve_decision. Defined.

Record CreateControl : Type := mkControl {
  defaultValues : nat;
  reValidateMode : ValidationMode;
  formValues : nat;
  fieldErrors : gmap string (list string);
  rules : gmap string ControlRule
}.

(** [defaultValues ?? {}]: the caller's object itself, or a new empty one. *)
Definition orEmptyObject (o : option nat) (h : gmap nat value) : nat * gmap nat value :=
  match o with
  | Some l => (l, h)
  | None => alloc (VObj ∅) h
  end.

Definition createControl (defaultValues : option nat)
    (reValidateMode : option ValidationMode)
    (rules : option (gmap string ControlRule))
    (h : gmap nat value) : CreateControl * gmap nat value :=
  let '(dv, h1) := orEmptyObject defaultValues h in
  let '(src, h2) := orEmptyObject defaultValues h1 in
  let '(fv, h3) := alloc (cloneDeep (deref h2 src)) h2 in
  (mkControl dv (default OnSubmit reValidateMode) fv ∅ (default ∅ rules), h3).

(** ** The form state manager ([composables/form.ts]) *)

Record UseFormProps : Type := mkProps {
  propsDefaultValues : option nat;
  propsReValidateMode : option ValidationMode
}.

(** The state of one [useForm] instance: the store, the [props] it was
    made with, the [control] ref and the [isSubmitting] ref. *)
Record FormState : Type := mkState {
  heap : gmap nat value;
  props : option UseFormProps;
  control : CreateControl;
  isSubmitting : bool
}.

Definition withHeap (h : gmap nat value) (st : FormState) : FormState :=
  mkState h (props st) (control st) (isSubmitting st).

Definition withControl (c : CreateControl) (st : FormState) : FormState :=
  mkState (heap st) (props st) c (isSubmitting st).

Definition withIsSubmitting (b : bool) (st : FormState) : FormState :=
  mkState (heap st) (props st) (control st) b.

Definition withFieldErrors (e : gmap string (list string)) (c : CreateControl)
  : CreateControl :=
  mkControl (defaultValues c) (reValidateMode c) (formValues c) e (rules c).

Definition withRules (r : gmap string ControlRule) (c : CreateControl)
  : CreateControl :=
  mkControl (defaultValues c) (reValidateMode c) (formValues c) (fieldErrors c) r.

(** [props?.reValidateMode || "onSubmit"] *)
Definition propsMode (p : option UseFormProps) : ValidationMode :=
  default OnSubmit (p ≫= propsReValidateMode).

Definition useForm (p : option UseFormProps) (h : gmap nat value) : FormState :=
  let '(c, h') := createControl (p ≫= propsDefaultValues) (Some (propsMode p)) None h in
  mkState h' p c false.

(** The computed [formValues] and [defaultValues] of the control. *)
Definition currentValues (st : FormState) : value :=
  deref (heap st) (formValues (control st)).

Definition currentDefaults (st : FormState) : value :=
  deref (heap st) (defaultValues (control st)).

Definition reset (newDefaults : nat) (st : FormState) : FormState :=
  let '(c, h') :=
    createControl (Some newDefaults) (Some (propsMode (props st)))
                  (Some (rules (control st))) (heap st) in
  withControl c (withHeap h' st).

Definition getValue (name : string) (st : FormState) : value :=
  get (currentValues st) name.

Definition clearError (name : string) (st : FormState) : FormState :=
  withControl (withFieldErrors (delete name (fieldErrors (control st))) (control st)) st.

Definition setError (name : string) (error : list string) (st : FormState) : FormState :=
  withControl (withFieldErrors (<[name := error]> (fieldErrors (control st))) (control st)) st.

Definition setErrors (errors : gmap string (list string)) (st : FormState) : FormState :=
  withControl (withFieldErrors errors (control st)) st.

Definition getError (name : string) (st : FormState) : option (list string) :=
  fieldErrors (control st) !! name.

Definition getRule (name : string) (st : FormState) : option ControlRule :=
  rules (control st) !! name.


Definition setRule (name : string) (r : ControlRule) (st : FormState) : FormState :=
  withControl (withRules (<[name := r]> (rules (control st))) (control st)) st.

Definition clearRule (name : string) (st : FormState) : FormState :=
  withControl (withRules (delete name (rules (control st))) (control st)) st.


Definition isDirty (st : FormState) : bool :=
  negb (isEqual (currentValues st) (currentDefaults st)).

Definition getCurrentFieldErrors (name : string) (st : FormState) : list string :=
  getFieldErrors (getValue name st) (getRule name st) (currentValues st).

Definition validateField (name : string) (st : FormState) : list string * FormState :=
  let errors := getCurrentFieldErrors name st in
  if (length errors =? 0)%nat
  then ([], clearError name st)
  else (errors, setError name errors st).

(** [SetValueOptions] *)
Record SetValueOptions : Type := mkOptions {
  shouldValidate : option bool;
  deepValidate : option bool
}.

(** The second argument of [setValue]: a value, or a function of the
    previous value. *)
Inductive SetValueArg : Type :=
  | Direct (v : value)
  | Updater (f : value -> value).

(** [set(control.value.formValues, name, newValue)], in place. *)
Definition writeValue (name : string) (newValue : value) (st : FormState) : FormState :=
  withHeap (<[formValues (control st) := set (currentValues st) name newValue]> (heap st)) st.

(** [options] is [None] when the caller leaves the argument out; the
    default value of the parameter is then used. *)
Definition setValue (name : string) (arg : SetValueArg)
    (options : option SetValueOptions) (st : FormState) : FormState :=
  let options := default (mkOptions (Some true) None) options in
  let newValue :=
    match arg with
    | Updater f => let prevValue := getValue name st in f prevValue
    | Direct v => v
    end in
  let st := writeValue name newValue st in
  if truthyBool (shouldValidate options)
     && (bool_decide (reValidateMode (control st) = All)
         || bool_decide (reValidateMode (control st) = OnChange))
  then snd (validateField name st)
  else st.

(** *** Submission

    The callbacks are the caller's code.  A callback sees the state of the
    form, may act on it through the control surface, and then returns (its
    promise, if it returns one, resolving), throws, or returns a promise that
    rejects.  Only [handleSubmit] writes [isSubmitting]. *)
Inductive Outcome : Type :=
  | Completed
  | Threw (e : value)
  | Rejected (e : value).

(** How the promise returned by [handleSubmit] settles. *)
Inductive Settlement : Type :=
  | Fulfilled
  | RejectedWith (e : value).

(** [await f(x)]: a throw and a rejection both surface. *)
Definition awaited (o : Outcome) : Settlement :=
  match o with
  | Completed => Fulfilled
  | Threw e => RejectedWith e
  | Rejected e => RejectedWith e
  end.

(** [f(x)] without [await]: only a throw surfaces. *)
Definition notAwaited (o : Outcome) : Settlement :=
  match o with
  | Threw e => RejectedWith e
  | _ => Fulfilled
  end.

Record Effect : Type := mkEffect {
  effHeap : gmap nat value;
  effControl : CreateControl;
  effOutcome : Outcome
}.

Definition Callback (A : Type) : Type := A -> FormState -> Effect.

Definition applyEffect (e : Effect) (st : FormState) : FormState :=
  withControl (effControl e) (withHeap (effHeap e) st).

(** What [handleSubmit] does that its caller can observe. *)
Inductive Event : Type :=
  | CallSetErrors (errors : gmap string (list string))
  | CallOnError (errors : gmap string (list string))
  | WriteIsSubmitting (b : bool)
  | CallOnSubmit (data : nat).

Record Submission : Type := mkSubmission {
  finalState : FormState;
  completion : Settlement;
  events : list Event
}.

(** The body of the [forEach] over the keys of the rule map. *)
Definition validateKey (st : FormState)
    (acc : gmap string (list string) * bool) (key : string)
  : gmap string (list string) * bool :=
  let errors := getCurrentFieldErrors key st in
  if (length errors =? 0)%nat
  then acc
  else (<[key := errors]> (fst acc), true).

(** [Object.keys(rules ?? {})].  Validation reads the state and nothing
    else, so the order of the keys does not matter. *)
Definition ruleKeys (st : FormState) : list string :=
  (map_to_list (rules (control st))).*1.

Definition validateAll (st : FormState) : gmap string (list string) * bool :=
  foldl (validateKey st) (∅, false) (ruleKeys st).

Definition handleSubmit (onSubmit : option (Callback nat))
    (onError : option (Callback (gmap string (list string))))
    (st : FormState) : Submission :=
  let fieldValues := formValues (control st) in
  let '(controlErrors, hasErrors) := validateAll st in
  let st := setErrors controlErrors st in
  if hasErrors then
    match onError with
    | Some f =>
        let e := f controlErrors st in
        mkSubmission (applyEffect e st) (notAwaited (effOutcome e))
                     [CallSetErrors controlErrors; CallOnError controlErrors]
    | None => mkSubmission st Fulfilled [CallSetErrors controlErrors]
    end
  else
    let st := withIsSubmitting true st in
    match onSubmit with
    | Some f =>
        let e := f fieldValues st in
        mkSubmission (withIsSubmitting false (applyEffect e st)) (awaited (effOutcome e))
                     [CallSetErrors controlErrors; WriteIsSubmitting true;
                      CallOnSubmit fieldValues; WriteIsSubmitting false]
    | None =>
        mkSubmission (withIsSubmitting false st) Fulfilled
                     [CallSetErrors controlErrors; WriteIsSubmitting true;
                      WriteIsSubmitting false]
    end.

(** ** Measures and conditions used in the proofs *)

(** The number of nodes of a tree. *)
Fixpoint value_size (v : value) : nat :=
  match v with
  | VArr items => S (foldr (λ x n, value_size x + n)%nat 0%nat items)
  | VObj fields => S (map_fold (λ _ x n, value_size x + n)%nat 0%nat fields)
  | _ => 1%nat
  end.

(** [object[key] = v] stores [v] under [key]. *)
Definition assignable (o : value) (key : string) : bool :=
  match o with
  | VObj _ => true
  | VArr _ => isIndex key
  | _ => false
  end.


(** The value that [setValue] writes. *)
Definition newValueOf (name : string) (arg : SetValueArg) (st : FormState) : value :=
  match arg with
  | Updater f => f (getValue name st)
  | Direct v => v
  end.

(** [name] has a rule, and validating it now gives at least one message. *)
Definition failingPath (st : FormState) (name : string) : Prop :=
  is_Some (getRule name st) ∧ getCurrentFieldErrors name st ≠ [].

(** The form values and the default values are two objects. *)
Definition distinctObjects (st : FormState) : Prop :=
  formValues (control st) ≠ defaultValues (control st).


(** ** Example forms *)

(** A store with one object of the caller, [{a: ""}], at location 0. *)
Definition emptyFieldStore : gmap nat value := {[ 0%nat := VObj {[ "a" := VStr "" ]} ]}.

(** The same with [{a: "x"}]. *)
Definition filledFieldStore : gmap nat value := {[ 0%nat := VObj {[ "a" := VStr "x" ]} ]}.

Definition requiredRule : ControlRule := mkRule (Some true) None None None None.

(** [useForm({defaultValues, reValidateMode: "onChange"})] followed by the
    registration of a [required] rule for the path [a]. *)
Definition formOver (h : gmap nat value) : FormState :=
  setRule "a" requiredRule (useForm (Some (mkProps (Some 0%nat) (Some OnChange))) h).

(** A custom validator that rejects everything. *)
Definition alwaysTaken : value -> value -> option (list string) :=
  fun _ _ => Some ["Taken"].

(** A callback that returns, one that throws, and one whose promise
    rejects. *)
Definition returning {A : Type} : Callback A :=
  fun _ st => mkEffect (heap st) (control st) Completed.

Definition throwing {A : Type} (e : value) : Callback A :=
  fun _ st => mkEffect (heap st) (control st) (Threw e).

Definition rejecting {A : Type} (e : value) : Callback A :=
  fun _ st => mkEffect (heap st) (control st) (Rejected e).

(** ** The rest of the control surface ([composables/form.ts]) *)

(** [delete object[key]].  The deleted element of an array becomes a hole,
    which reads as undefined; the length of the array stays. *)
Definition deleteKey (o : value) (key : string) : value :=
  match o with
  | VObj fields => VObj (delete key fields)
  | VArr items =>
      match indexOfKey key with
      | Some i => VArr (<[i := VUndefined]> items)
      | None => o
      end
  | _ => o
  end.

(** The helper [unset]: the last key is deleted from its parent, when the
    path down to the parent goes through containers; nothing is created. *)
Fixpoint baseUnset (o : value) (path : list string) : value :=
  match path with
  | [] => o
  | key :: rest =>
      match rest with
      | [] => deleteKey o key
      | _ :: _ =>
          if isObject (prop o key)
          then assign o key (baseUnset (prop o key) rest)
          else o
      end
  end.

(** [unset(object, name)], as the new content of [object]. *)
Definition unset (o : value) (name : string) : value :=
  baseUnset o (stringToPath name).

Definition unregister (name : string) (st : FormState) : FormState :=
  withHeap (<[formValues (control st) := unset (currentValues st) name]> (heap st)) st.

(** The computed [isValid]: no entry of the error map has a message. *)
Definition isValid (st : FormState) : bool :=
  negb (existsb (fun entry => negb (length (snd entry) =? 0)%nat)
                (map_to_list (fieldErrors (control st)))).




(** ** The field binder ([composables/controller.ts]) *)

(** [ControllerProps], without the control, which is the form state here.
    [propRules] and [propName] are the properties [rules] and [name]. *)
Record ControllerProps : Type := mkControllerProps {
  propRules : option ControlRule;
  propName : string;
  shouldUnregister : option bool;
  shouldClearErrorOnFocus : option bool;
  shouldUnregisterRule : option bool
}.

(** The local [setRule] of [useController]: an undefined rule is ignored.
    It runs when the field is mounted, and again from the watcher on
    [rules]. *)
Definition registerRule (p : ControllerProps) (r : option ControlRule)
    (st : FormState) : FormState :=
  match r with
  | None => st
  | Some r => setRule (propName p) r st
  end.

(** The callback given to [onMounted]. *)
Definition mounted (p : ControllerProps) (st : FormState) : FormState :=
  registerRule p (propRules p) st.

(** The callback given to [onUnmounted]; [shouldUnregisterRule] is true
    when it is not given. *)
Definition unmounted (p : ControllerProps) (st : FormState) : FormState :=
  let st := if truthyBool (shouldUnregister p) then unregister (propName p) st else st in
  if default true (shouldUnregisterRule p) then clearRule (propName p) st else st.

Definition onChange (p : ControllerProps) (v : SetValueArg)
    (options : option SetValueOptions) (st : FormState) : FormState :=
  setValue (propName p) v options st.

(** [shouldClearErrorOnFocus] is true when it is not given. *)
Definition onFocus (p : ControllerProps) (st : FormState) : FormState :=
  if negb (default true (shouldClearErrorOnFocus p)) then st
  else clearError (propName p) st.

Definition onBlur (p : ControllerProps) (st : FormState) : FormState :=
  if bool_decide (reValidateMode (control st) = All)
     || bool_decide (reValidateMode (control st) = OnBlur)
  then snd (validateField (propName p) st)
  else st.

(** What happens to a mounted field. *)
Inductive FieldEvent : Type :=
  | Change (v : SetValueArg) (options : option SetValueOptions)
  | Focus
  | Blur.

Definition fieldEvent (p : ControllerProps) (st : FormState) (e : FieldEvent) : FormState :=
  match e with
  | Change v options => onChange p v options st
  | Focus => onFocus p st
  | Blur => onBlur p st
  end.

Definition fieldEvents (p : ControllerProps) (es : list FieldEvent) (st : FormState)
  : FormState :=
  foldl (fieldEvent p) st es.

(** ** More example forms *)

(** A field bound to the path [a] with a [required] rule and the default
    options. *)
Definition fieldA : ControllerProps :=
  mkControllerProps (Some requiredRule) "a" None None None.

(** The pattern [/^[a-z]+$/]. *)
Definition lowerCaseWord : RegExp := mkRegExp true (RPlus (RRange "a" "z")) true.

(** [useForm({defaultValues})] in the default mode, with a [required] rule
    for [a]. *)
Definition submitForm (h : gmap nat value) : FormState :=
  setRule "a" requiredRule (useForm (Some (mkProps (Some 0%nat) None)) h).

(** The same in the mode [onBlur]. *)
Definition blurForm (h : gmap nat value) : FormState :=
  setRule "a" requiredRule (useForm (Some (mkProps (Some 0%nat) (Some OnBlur))) h).


(** * Properties *)

(** ** Regular expressions: [test] finds a matching substring *)

Lemma append_nil_l (s : string) : "" +:+ s = s.
Proof. reflexivity. Qed.

Lemma append_cons (a : ascii) (s1 s2 : string) :
  String a s1 +:+ s2 = String a (s1 +:+ s2).
Proof. reflexivity. Qed.

Lemma append_eq_nil (s1 s2 : string) : s1 +:+ s2 = "" → s1 = "" ∧ s2 = "".
Proof. destruct s1; [by rewrite append_nil_l|by rewrite append_cons]. Qed.

Lemma append_eq_cons (s1 s2 : string) (a : ascii) (s : string) :
  s1 +:+ s2 = String a s →
  (s1 = "" ∧ s2 = String a s) ∨ (∃ s1', s1 = String a s1' ∧ s = s1' +:+ s2).
Proof.
  destruct s1 as [|b s1]; [rewrite append_nil_l; by left|].
  rewrite append_cons. intros [= -> <-]. right. by exists s1.
Qed.

Lemma nullable_spec (r : re) : nullable r = true ↔ matches r "".
Proof.
  split.
  - induction r as [| | | |r1 IH1 r2 IH2|r1 IH1 r2 IH2|r IH]; simpl; try done.
    + intros _. constructor.
    + intros [H1 H2]%andb_true_iff.
      rewrite <- (append_nil_l ""). constructor; auto.
    + intros [H1|H2]%orb_true_iff; [apply MAltL|apply MAltR]; auto.
    + intros _. constructor.
  - intros Hm. remember "" as s eqn:Hs.
    induction Hm as [| | |r1 r2 s1 s2 _ IH1 _ IH2|r1 r2 s _ IH|r1 r2 s _ IH| |];
      simpl; try done.
    + apply append_eq_nil in Hs as [-> ->]. by rewrite IH1, IH2.
    + by rewrite IH.
    + rewrite IH by done. apply orb_true_r.
Qed.

Lemma deriv_sound (a : ascii) (r : re) (s : string) :
  matches (deriv a r) s → matches r (String a s).
Proof.
  revert s.
  induction r as [| |c|lo hi|r1 IH1 r2 IH2|r1 IH1 r2 IH2|r IH]; simpl; intros s Hm.
  - inversion Hm.
  - inversion Hm.
  - destruct (Ascii.eqb_spec a c) as [->|]; inversion Hm. constructor.
  - destruct (inRange lo hi a) eqn:Hin; inversion Hm. by constructor.
  - assert (∀ s, matches (RCat (deriv a r1) r2) s → matches (RCat r1 r2) (String a s))
      as Hleft.
    { intros s' Hcat. inversion Hcat as [| | |? ? s1 s2 H1 H2| | | |]; subst.
      rewrite <- append_cons. constructor; auto. }
    destruct (nullable r1) eqn:Hnull; [|by apply Hleft].
    inversion Hm as [| | | |? ? ? Hl|? ? ? Hr| |]; subst; [by apply Hleft|].
    rewrite <- (append_nil_l (String a s)).
    constructor; [by apply nullable_spec|auto].
  - inversion Hm; subst; [apply MAltL|apply MAltR]; auto.
  - inversion Hm as [| | |? ? s1 s2 H1 H2| | | |]; subst.
    rewrite <- append_cons. constructor; auto.
Qed.

Lemma deriv_complete (a : ascii) (r : re) (s : string) :
  matches r (String a s) → matches (deriv a r) s.
Proof.
  intros Hm. remember (String a s) as s0 eqn:Hs. revert s Hs.
  induction Hm as [|c|lo hi b Hin|r1 r2 s1 s2 H1 IH1 H2 IH2|r1 r2 s0 _ IH
                  |r1 r2 s0 _ IH|r|r s1 s2 H1 IH1 H2 IH2];
    intros s Hs; simpl.
  - done.
  - injection Hs as -> <-. rewrite Ascii.eqb_refl. constructor.
  - injection Hs as -> <-. rewrite Hin. constructor.
  - apply append_eq_cons in Hs as [[-> ->]|(s1' & -> & ->)].
    + rewrite (proj2 (nullable_spec r1) H1). apply MAltR. by apply IH2.
    + assert (matches (RCat (deriv a r1) r2) (s1' +:+ s2)) as Hcat.
      { constructor; [by apply IH1|done]. }
      destruct (nullable r1); [by apply MAltL|done].
  - apply MAltL. by apply IH.
  - apply MAltR. by apply IH.
  - done.
  - apply append_eq_cons in Hs as [[-> ->]|(s1' & -> & ->)].
    + by apply IH2.
    + constructor; [by apply IH1|done].
Qed.

(** [matchesFrom] recognises the prefixes of [s] that match, and with
    [toEnd] only [s] itself. *)
Lemma matchesFrom_spec (toEnd : bool) (r : re) (s : string) :
  matchesFrom toEnd r s = true
  ↔ ∃ mid post, s = mid +:+ post ∧ matches r mid ∧ (toEnd = true → post = "").
Proof.
  revert r. induction s as [|a s IH]; intros r; simpl.
  - rewrite nullable_spec. split.
    + intros Hm. by exists "", "".
    + intros (mid & post & Hs & Hm & _).
      symmetry in Hs. by apply append_eq_nil in Hs as [-> _].
  - rewrite orb_true_iff, andb_true_iff, negb_true_iff, nullable_spec, IH. split.
    + intros [[-> Hm]|(mid & post & -> & Hm & Hend)].
      * by exists "", (String a s).
      * exists (String a mid), post. split_and!; [done| |done].
        by apply deriv_sound.
    + intros (mid & post & Hs & Hm & Hend). symmetry in Hs.
      apply append_eq_cons in Hs as [[-> ->]|(mid' & -> & ->)].
      * left. split; [|done]. destruct toEnd; [|done]. by specialize (Hend eq_refl).
      * right. exists mid', post. split_and!; [done| |done].
        by apply deriv_complete.
Qed.

Lemma searchFrom_spec (toEnd : bool) (r : re) (s : string) :
  searchFrom toEnd r s = true
  ↔ ∃ pre mid post,
      s = pre +:+ mid +:+ post ∧ matches r mid ∧ (toEnd = true → post = "").
Proof.
  induction s as [|a s IH]; cbn [searchFrom].
  - rewrite orb_false_r, matchesFrom_spec. split.
    + intros (mid & post & Hs & Hm & Hend). by exists "", mid, post.
    + intros (pre & mid & post & Hs & Hm & Hend). symmetry in Hs.
      apply append_eq_nil in Hs as [-> Hs]. by exists mid, post.
  - rewrite orb_true_iff, matchesFrom_spec, IH. split.
    + intros [(mid & post & Hs & Hm & Hend)|(pre & mid & post & -> & Hm & Hend)].
      * by exists "", mid, post.
      * by exists (String a pre), mid, post.
    + intros (pre & mid & post & Hs & Hm & Hend). symmetry in Hs.
      apply append_eq_cons in Hs as [[-> Hs]|(pre' & -> & ->)].
      * left. by exists mid, post.
      * right. by exists pre', mid, post.
Qed.

(** [test] is true exactly when a substring matches the body, starting at
    the start under [^] and ending at the end under [$]. *)
Lemma RegExp_test_spec (p : RegExp) (s : string) :
  RegExp_test p s = true
  ↔ ∃ pre mid post,
      s = pre +:+ mid +:+ post ∧ matches (body p) mid
      ∧ (anchoredStart p = true → pre = "")
      ∧ (anchoredEnd p = true → post = "").
Proof.
  unfold RegExp_test. destruct (anchoredStart p).
  - rewrite matchesFrom_spec. split.
    + intros (mid & post & Hs & Hm & Hend). by exists "", mid, post.
    + intros (pre & mid & post & Hs & Hm & Hstart & Hend).
      rewrite (Hstart eq_refl) in Hs. by exists mid, post.
  - rewrite searchFrom_spec. split.
    + intros (pre & mid & post & Hs & Hm & Hend). by exists pre, mid, post.
    + intros (pre & mid & post & Hs & Hm & _ & Hend). by exists pre, mid, post.
Qed.

(** ** The validator *)

Lemma pushIf_app (c : bool) (msg : string) (errors : list string) :
  pushIf c msg errors = errors ++ (if c then [msg] else []).
Proof. destruct c; simpl; by rewrite ?app_nil_r. Qed.

Lemma elem_of_pushed (c : bool) (msg x : string) :
  x ∈ (if c then [msg] else []) → x = msg.
Proof.
  destruct c; [by intros ?%list_elem_of_singleton | by intros ?%elem_of_nil].
Qed.

Lemma valueLength_nullish (v : value) :
  isNullish v = true → valueLength v = 0%nat.
Proof. unfold valueLength, optToString. by intros ->. Qed.

(** The four messages are pairwise different, whatever the bounds: they
    differ in one of their first 22 characters. *)
Ltac differ_in_prefix :=
  let H := fresh "H" in
  intros H; cbv [msgMaxLength msgMinLength msgRequired msgPattern] in H;
  repeat (injection H as ? H); discriminate.

Lemma msgMaxLength_not_required n : msgMaxLength n ≠ msgRequired.
Proof. differ_in_prefix. Qed.

Lemma msgMaxLength_not_min n m : msgMaxLength n ≠ msgMinLength m.
Proof. differ_in_prefix. Qed.

Lemma msgMaxLength_not_pattern n : msgMaxLength n ≠ msgPattern.
Proof. differ_in_prefix. Qed.

Lemma msgMinLength_not_required n : msgMinLength n ≠ msgRequired.
Proof. differ_in_prefix. Qed.

Lemma msgMinLength_not_pattern n : msgMinLength n ≠ msgPattern.
Proof. differ_in_prefix. Qed.

(** Without a list from the custom validator, [getFieldErrors] is the
    required message alone, or the three independent checks in order. *)
Lemma getFieldErrors_builtin v r s :
  customValidation r v s = None →
  getFieldErrors v (Some r) s =
    if truthyBool (required r) && (valueLength v =? 0)%nat
    then [msgRequired]
    else (if maxLengthFails r (valueLength v)
          then [msgMaxLength (default 0 (maxLength r))] else [])
         ++ (if minLengthFails r (valueLength v)
             then [msgMinLength (default 0 (minLength r))] else [])
         ++ (if patternFails r v then [msgPattern] else []).
Proof.
  intros Hcustom. unfold getFieldErrors. rewrite Hcustom.
  destruct (truthyBool (required r) && (valueLength v =? 0)%nat); [done|].
  by rewrite !pushIf_app, app_nil_l, <- app_assoc.
Qed.

(** C1. Precedence in the validator: no rule gives no errors; a list
    returned by the rule's own [validate] is the result as it is, whatever
    the built-in checks would say; otherwise a required field whose text
    has length 0 (a nullish value has length 0) gives exactly the one
    message "Field is required!". *)
Theorem getFieldErrors_precedence :
  (∀ v s, getFieldErrors v None s = [])
  ∧ (∀ v r s f customErrors,
        validate r = Some f → f v s = Some customErrors →
        getFieldErrors v (Some r) s = customErrors)
  ∧ (∀ v r s,
        customValidation r v s = None →
        required r = Some true → valueLength v = 0%nat →
        getFieldErrors v (Some r) s = ["Field is required!"])
  ∧ valueLength VUndefined = 0%nat ∧ valueLength VNull = 0%nat
  ∧ valueLength (VStr "") = 0%nat.
Proof.
  split_and!; try reflexivity.
  - intros v r s f l Hf Hl. unfold getFieldErrors, customValidation.
    by rewrite Hf, Hl.
  - intros v r s Hcustom Hreq Hlen.
    rewrite getFieldErrors_builtin by done. by rewrite Hreq, Hlen.
Qed.

(** A bound is checked when it is not zero. *)
Lemma bound_check (m : Z) (b : bool) (P : Prop) `{!Decision P} :
  (b = true ↔ P) → negb (m =? 0) && b = bool_decide (m ≠ 0 ∧ P).
Proof.
  intros Hb. destruct (Z.eqb_spec m 0) as [Hm|Hm]; cbn [negb andb].
  - symmetry. apply bool_decide_eq_false_2. by intros [? _].
  - destruct b; symmetry.
    + apply bool_decide_eq_true_2. split; [done|]. by apply Hb.
    + apply bool_decide_eq_false_2. intros [_ HP]. by apply Hb in HP.
Qed.

Lemma maxLengthFails_spec r len :
  maxLengthFails r len
  = match maxLength r with
    | Some m => bool_decide (m ≠ 0 ∧ m < Z.of_nat len)
    | None => false
    end.
Proof.
  unfold maxLengthFails, truthyNum. destruct (maxLength r) as [m|]; [|done].
  apply bound_check, bool_decide_eq_true.
Qed.

Lemma minLengthFails_spec r len :
  minLengthFails r len
  = match minLength r with
    | Some m => bool_decide (m ≠ 0 ∧ Z.of_nat len < m)
    | None => false
    end.
Proof.
  unfold minLengthFails, truthyNum. destruct (minLength r) as [m|]; [|done].
  apply bound_check, bool_decide_eq_true.
Qed.

(** C2. The built-in checks: when the custom validator gives no list and
    the required check does not fire, the result is the too-long message,
    then the too-short message, then the pattern message, each present
    exactly when its bound or pattern is set (and truthy) and the value
    fails it.  With minLength 5, maxLength 10 and the pattern
    [/^[a-z]+$/], the value "ab1" gets the too-short and the pattern
    message and no too-long message. *)
Theorem getFieldErrors_builtin_order :
  (∀ v r s,
      customValidation r v s = None →
      ¬ (required r = Some true ∧ valueLength v = 0%nat) →
      getFieldErrors v (Some r) s =
        match maxLength r with
        | Some m =>
            if bool_decide (m ≠ 0 ∧ m < Z.of_nat (valueLength v))
            then [msgMaxLength m] else []
        | None => []
        end
        ++ match minLength r with
           | Some m =>
               if bool_decide (m ≠ 0 ∧ Z.of_nat (valueLength v) < m)
               then [msgMinLength m] else []
           | None => []
           end
        ++ match pattern r with
           | Some (PRegExp p) =>
               if RegExp_test p (testInput v) then [] else [msgPattern]
           | Some (PString source) =>
               if bool_decide (source = "") then []
               else if RegExp_test (compile source) (testInput v)
                    then [] else [msgPattern]
           | None => []
           end)
  ∧ (∀ s,
      getFieldErrors (VStr "ab1")
        (Some (mkRule None (Some 5) (Some 10) None
           (Some (PRegExp (mkRegExp true (RPlus (RRange "a" "z")) true))))) s
      = ["The field may not be shorter than 5 characters!";
         "The field did not match the expected pattern!"]).
Proof.
  split; [|done].
  intros v r s Hcustom Hreq. rewrite getFieldErrors_builtin by done.
  replace (truthyBool (required r) && (valueLength v =? 0)%nat) with false.
  2:{ symmetry. apply andb_false_iff.
      destruct (required r) as [[]|]; simpl; auto.
      right. apply Nat.eqb_neq. intros Hlen. by apply Hreq. }
  rewrite maxLengthFails_spec, minLengthFails_spec.
  unfold patternFails, truthyPattern.
  f_equal; [|f_equal].
  - by destruct (maxLength r).
  - by destruct (minLength r).
  - destruct (pattern r) as [[p|source]|]; simpl; [| |done].
    + by destruct (RegExp_test p (testInput v)).
    + case_bool_decide as Hsrc.
      * by rewrite Hsrc.
      * apply String.eqb_neq in Hsrc. rewrite Hsrc. simpl.
        by destruct (RegExp_test (compile source) (testInput v)).
Qed.

(** C9. A bound of 0 is no bound: the validator tests the bounds for
    truthiness, so a rule with maxLength 0 (with minLength 0) validates
    every value exactly as the same rule without that bound, and in
    particular never yields a too-long (a too-short) message from its
    built-in checks, also for values whose text is longer than 0. *)
Theorem getFieldErrors_zero_bound :
  (∀ v req minL val pat s,
      getFieldErrors v (Some (mkRule req minL (Some 0) val pat)) s
      = getFieldErrors v (Some (mkRule req minL None val pat)) s
      ∧ (customValidation (mkRule req minL (Some 0) val pat) v s = None →
         ∀ n, msgMaxLength n ∉ getFieldErrors v (Some (mkRule req minL (Some 0) val pat)) s))
  ∧ (∀ v req maxL val pat s,
      getFieldErrors v (Some (mkRule req (Some 0) maxL val pat)) s
      = getFieldErrors v (Some (mkRule req None maxL val pat)) s
      ∧ (customValidation (mkRule req (Some 0) maxL val pat) v s = None →
         ∀ n, msgMinLength n ∉ getFieldErrors v (Some (mkRule req (Some 0) maxL val pat)) s))
  ∧ getFieldErrors (VStr "abc") (Some (mkRule None None (Some 0) None None)) VUndefined = []
  ∧ getFieldErrors (VStr "abc") (Some (mkRule None None (Some 1) None None)) VUndefined
    = ["The field may not be longer than 1 characters!"].
Proof.
  split_and!; try reflexivity.
  - intros v req minL val pat s. split; [done|].
    intros Hcustom n. rewrite getFieldErrors_builtin by done.
    replace (maxLengthFails _ (valueLength v)) with false by done.
    destruct (truthyBool _ && _).
    + intros Hin%list_elem_of_singleton. by eapply msgMaxLength_not_required.
    + rewrite !elem_of_app.
      intros [Hin%elem_of_nil|[Hin%elem_of_pushed|Hin%elem_of_pushed]]; [done| |].
      * by eapply msgMaxLength_not_min.
      * by eapply msgMaxLength_not_pattern.
  - intros v req maxL val pat s. split; [done|].
    intros Hcustom n. rewrite getFieldErrors_builtin by done.
    replace (minLengthFails _ (valueLength v)) with false by done.
    destruct (truthyBool _ && _).
    + intros Hin%list_elem_of_singleton. by eapply msgMinLength_not_required.
    + rewrite !elem_of_app.
      intros [Hin%elem_of_pushed|[Hin%elem_of_nil|Hin%elem_of_pushed]]; [|done|].
      * symmetry in Hin. by eapply msgMaxLength_not_min.
      * by eapply msgMinLength_not_pattern.
Qed.

(** ** Trees, paths and the store *)

Lemma value_size_item (items : list value) (x : value) :
  x ∈ items → (value_size x < value_size (VArr items))%nat.
Proof. simpl. induction 1; simpl; lia. Qed.

Lemma value_size_field (fields : gmap string value) (key : string) (x : value) :
  fields !! key = Some x → (value_size x < value_size (VObj fields))%nat.
Proof.
  intros Hx. simpl.
  rewrite (map_fold_delete_L _ _ key x fields); [lia| |done].
  intros. lia.
Qed.

(** Induction on trees, with the hypothesis for every element of an array
    and every field of an object. *)
Lemma value_nested_ind (P : value → Prop) :
  P VUndefined → P VNull → (∀ b, P (VBool b)) → (∀ n, P (VNum n)) →
  (∀ s, P (VStr s)) →
  (∀ items, Forall P items → P (VArr items)) →
  (∀ fields, map_Forall (λ _, P) fields → P (VObj fields)) →
  ∀ v, P v.
Proof.
  intros Hu Hn Hb Hz Hs Ha Ho v.
  remember (value_size v) as n eqn:Hsize. revert v Hsize.
  induction n as [n IH] using lt_wf_ind. intros v ->.
  destruct v as [| | | | |items|fields]; auto.
  - apply Ha, Forall_forall. intros x Hx.
    eapply IH; [|done]. by apply value_size_item.
  - apply Ho. intros key x Hx.
    eapply IH; [|done]. by eapply value_size_field.
Qed.

(** A deep copy is deep-equal to its source. *)
Lemma cloneDeep_eq (v : value) : cloneDeep v = v.
Proof.
  induction v as [| | | | |items IH|fields IH] using value_nested_ind;
    simpl; try done; f_equal.
  - induction IH as [|x items Hx _ IHitems]; [done|].
    rewrite fmap_cons. by f_equal.
  - apply map_eq. intros key. rewrite lookup_fmap.
    destruct (fields !! key) as [x|] eqn:Hkey; simpl; [|done].
    f_equal. by eapply IH.
Qed.

Lemma map_fold_all {A : Type} (f : string → A → bool) (m : gmap string A) :
  map_fold (λ key x acc, acc && f key x) true m = true
  ↔ map_Forall (λ key x, f key x = true) m.
Proof.
  apply (map_fold_weak_ind
           (λ r m, r = true ↔ map_Forall (λ key x, f key x = true) m)).
  - split; [intros _; apply map_Forall_empty|done].
  - intros key x m' r Hfresh IH.
    rewrite andb_true_iff, IH, map_Forall_insert by done. tauto.
Qed.

Lemma equalArrays_true (xs ys : list value) :
  Forall (λ x, ∀ y, isEqual x y = true ↔ x = y) xs →
  equalArrays isEqual xs ys = true ↔ xs = ys.
Proof.
  intros Hxs. revert ys.
  induction Hxs as [|x xs Hx _ IH]; intros [|y ys]; simpl; try done.
  rewrite andb_true_iff, Hx, IH. split; [by intros [-> ->]|by intros [= -> ->]].
Qed.

(** On trees, [isEqual] decides equality. *)
Lemma isEqual_true (a b : value) : isEqual a b = true ↔ a = b.
Proof.
  revert b.
  induction a as [| |x|x|x|xs IH|fields IH] using value_nested_ind;
    intros [| |y|y|y|ys|others]; simpl; try done;
    try (rewrite bool_decide_eq_true; split; congruence).
  - rewrite equalArrays_true by done. split; congruence.
  - rewrite andb_true_iff, bool_decide_eq_true, map_fold_all. split.
    + intros [Hsize Hall]. f_equal.
      apply map_subseteq_size_eq; [|by rewrite Hsize].
      apply map_subseteq_spec. intros key x Hx.
      specialize (Hall key x Hx). simpl in Hall.
      destruct (others !! key) as [y|] eqn:Hy; [|done].
      by apply (IH key x Hx) in Hall as ->.
    + intros [= ->]. split; [done|].
      intros key x Hx. simpl. rewrite Hx. by apply (IH key x Hx).
Qed.


Lemma isEqual_clone (v : value) : isEqual (cloneDeep v) v = true.
Proof. apply isEqual_true, cloneDeep_eq. Qed.

Lemma arrayAssign_lookup (items : list value) (i : nat) (v : value) :
  arrayAssign items i v !! i = Some v.
Proof.
  unfold arrayAssign. destruct (Nat.ltb_spec i (length items)).
  - by apply list_lookup_insert_eq.
  - rewrite lookup_app_r by lia.
    rewrite lookup_app_r by (rewrite length_replicate; lia).
    rewrite length_replicate.
    by replace (i - length items - (i - length items))%nat with 0%nat by lia.
Qed.




Lemma prop_assign (o : value) (key : string) (v : value) :
  assignable o key = true → prop (assign o key v) key = v.
Proof.
  destruct o as [| | | | |items|fields]; simpl; try done.
  - unfold isIndex. destruct (indexOfKey key) as [i|] eqn:Hi; [|done].
    intros _. simpl. by rewrite Hi, arrayAssign_lookup.
  - intros _. by rewrite lookup_insert_eq.
Qed.

Lemma nestedFor_isObject (o : value) (key next : string) :
  isObject (nestedFor o key next) = true.
Proof.
  unfold nestedFor. destruct (isObject (prop o key)) eqn:Hobj; [done|].
  by destruct (isIndex next).
Qed.




Lemma deref_insert_eq (h : gmap nat value) (l : nat) (v : value) :
  deref (<[l := v]> h) l = v.
Proof. unfold deref. by rewrite lookup_insert_eq. Qed.

Lemma deref_insert_ne (h : gmap nat value) (l k : nat) (v : value) :
  l ≠ k → deref (<[l := v]> h) k = deref h k.
Proof. intros. unfold deref. by rewrite lookup_insert_ne. Qed.

(** ** The control factory *)

Lemma createControl_supplied l mode rs (h : gmap nat value) :
  createControl (Some l) mode rs h
  = (mkControl l (default OnSubmit mode) (fresh (dom h)) ∅ (default ∅ rs),
     <[fresh (dom h) := cloneDeep (deref h l)]> h).
Proof. reflexivity. Qed.

Lemma createControl_absent mode rs (h : gmap nat value) :
  let l0 := fresh (dom h) in
  let h1 := <[l0 := VObj ∅]> h in
  let l1 := fresh (dom h1) in
  let h2 := <[l1 := VObj ∅]> h1 in
  createControl None mode rs h
  = (mkControl l0 (default OnSubmit mode) (fresh (dom h2)) ∅ (default ∅ rs),
     <[fresh (dom h2) := cloneDeep (deref h2 l1)]> h2).
Proof. reflexivity. Qed.

Lemma fresh_ne (h : gmap nat value) (l : nat) : l ∈ dom h → l ≠ fresh (dom h).
Proof. intros Hl Heq. subst l. exact (is_fresh (dom h) Hl). Qed.

(** The record made by the factory starts clean: its form values are
    deep-equal to its default values. *)
Lemma createControl_clean d mode rs (h : gmap nat value) :
  deref (snd (createControl d mode rs h)) (formValues (fst (createControl d mode rs h)))
  = deref (snd (createControl d mode rs h)) (defaultValues (fst (createControl d mode rs h))).
Proof.
  destruct d as [l|].
  - rewrite createControl_supplied. simpl.
    rewrite deref_insert_eq, !cloneDeep_eq.
    destruct (decide (fresh (dom h) = l)) as [<-|Hne].
    + by rewrite deref_insert_eq.
    + by rewrite deref_insert_ne.
  - rewrite createControl_absent. simpl.
    rewrite deref_insert_eq, !cloneDeep_eq, deref_insert_eq.
    rewrite deref_insert_ne.
    2:{ apply not_eq_sym, fresh_ne. rewrite !dom_insert_L. set_solver. }
    rewrite deref_insert_ne.
    2:{ apply not_eq_sym, fresh_ne. rewrite !dom_insert_L. set_solver. }
    by rewrite deref_insert_eq.
Qed.

Lemma createControl_distinct d mode rs (h : gmap nat value) :
  (∀ l, d = Some l → l ∈ dom h) →
  formValues (fst (createControl d mode rs h))
  ≠ defaultValues (fst (createControl d mode rs h)).
Proof.
  intros Hd. destruct d as [l|].
  - rewrite createControl_supplied. simpl.
    apply not_eq_sym, fresh_ne. by apply Hd.
  - rewrite createControl_absent. simpl.
    apply not_eq_sym, fresh_ne. rewrite !dom_insert_L. set_solver.
Qed.

(** ** The form state manager *)

Lemma useForm_unfold p (h : gmap nat value) :
  useForm p h
  = mkState (snd (createControl (p ≫= propsDefaultValues) (Some (propsMode p)) None h))
            p
            (fst (createControl (p ≫= propsDefaultValues) (Some (propsMode p)) None h))
            false.
Proof. unfold useForm. by destruct (createControl _ _ _ _). Qed.

Lemma reset_unfold l st :
  reset l st
  = mkState (<[fresh (dom (heap st)) := cloneDeep (deref (heap st) l)]> (heap st))
            (props st)
            (mkControl l (propsMode (props st)) (fresh (dom (heap st))) ∅
                       (rules (control st)))
            (isSubmitting st).
Proof. reflexivity. Qed.


Lemma reset_clean l st : currentValues (reset l st) = currentDefaults (reset l st).
Proof.
  exact (createControl_clean (Some l) (Some (propsMode (props st)))
           (Some (rules (control st))) (heap st)).
Qed.

Lemma useForm_distinct p (h : gmap nat value) :
  (∀ l, p ≫= propsDefaultValues = Some l → l ∈ dom h) →
  distinctObjects (useForm p h).
Proof.
  intros Hp. unfold distinctObjects. rewrite useForm_unfold. simpl.
  by apply createControl_distinct.
Qed.

Lemma reset_distinct l st : l ∈ dom (heap st) → distinctObjects (reset l st).
Proof.
  intros Hl.
  apply (createControl_distinct (Some l) (Some (propsMode (props st)))
           (Some (rules (control st))) (heap st)).
  by intros ? [= <-].
Qed.



(** Does this call of [setValue] validate the path after writing it? *)
Lemma setValue_unfold name arg options st :
  setValue name arg options st
  = if truthyBool (shouldValidate (default (mkOptions (Some true) None) options))
       && (bool_decide (reValidateMode (control st) = All)
           || bool_decide (reValidateMode (control st) = OnChange))
    then snd (validateField name (writeValue name (newValueOf name arg st) st))
    else writeValue name (newValueOf name arg st) st.
Proof. by destruct arg. Qed.






(** C5. [validateField] runs the validator on the current value of the
    path, its current rule and the current form values.  An empty result
    removes the path's entry from the error map and is returned as the
    empty list; any other result is stored under the path and returned.
    The entries of other paths stay as they are.  So a path without a rule
    validates to the empty list and has no entry afterwards. *)
Theorem validateField_spec (name : string) (st : FormState) :
  let errors := getFieldErrors (getValue name st) (getRule name st) (currentValues st) in
  (errors = [] →
     validateField name st = ([], clearError name st)
     ∧ getError name (snd (validateField name st)) = None)
  ∧ (errors ≠ [] →
     validateField name st = (errors, setError name errors st)
     ∧ getError name (snd (validateField name st)) = Some errors)
  ∧ (∀ other, other ≠ name →
     getError other (snd (validateField name st)) = getError other st)
  ∧ (getRule name st = None →
     fst (validateField name st) = []
     ∧ getError name (snd (validateField name st)) = None).
Proof.
  intros errors.
  assert (errors = [] →
          validateField name st = ([], clearError name st)
          ∧ getError name (snd (validateField name st)) = None) as Hempty.
  { intros Herr. unfold validateField, getCurrentFieldErrors.
    fold errors. rewrite Herr. simpl. split; [done|].
    unfold getError. simpl. apply lookup_delete_eq. }
  split_and!; [done| | |].
  - intros Herr. unfold validateField, getCurrentFieldErrors. fold errors.
    destruct errors as [|msg errors']; [done|]. simpl. split; [done|].
    unfold getError. simpl. apply lookup_insert_eq.
  - intros other Hother. unfold validateField.
    destruct (length _ =? 0)%nat; unfold getError; simpl.
    + by apply lookup_delete_ne.
    + by apply lookup_insert_ne.
  - intros Hrule.
    assert (errors = []) as Herr by (unfold errors; by rewrite Hrule).
    destruct (Hempty Herr) as [-> ?]. by split.
Qed.

(** C6. [reset(newDefaults)] replaces the record of the control by a new
    one from the factory: the form values and the default values are both
    equal to [newDefaults], the error map is empty, the rule map is the one
    from before, and the form is not dirty. *)
Theorem reset_spec (newDefaults : nat) (st : FormState) :
  let st' := reset newDefaults st in
  (control st', heap st')
    = createControl (Some newDefaults) (Some (propsMode (props st)))
                    (Some (rules (control st))) (heap st)
  ∧ currentValues st' = deref (heap st) newDefaults
  ∧ currentDefaults st' = deref (heap st) newDefaults
  ∧ fieldErrors (control st') = ∅
  ∧ (∀ name, getError name st' = None)
  ∧ rules (control st') = rules (control st)
  ∧ (∀ name, getRule name st' = getRule name st)
  ∧ isDirty st' = false.
Proof.
  intros st'.
  pose proof (reset_clean newDefaults st) as Hclean. fold st' in Hclean.
  assert (currentValues st' = deref (heap st) newDefaults) as Hvalues.
  { unfold st'. rewrite reset_unfold. unfold currentValues. simpl.
    by rewrite deref_insert_eq, cloneDeep_eq. }
  split_and!; try done.
  - by rewrite <- Hclean.
  - unfold isDirty. by rewrite Hclean, negb_false_iff, isEqual_true.
Qed.


(** C10. The default [{shouldValidate: true}] of [setValue] is the default
    of the whole options argument.  With an options object in which
    [shouldValidate] is absent or false, [setValue] writes the value and
    validates nothing, whatever the revalidation mode: the error map is as
    before.  Without the argument, under [onChange] or [all], it writes
    the value and then validates the path. *)
Theorem setValue_explicit_options :
  (∀ name arg options st,
      shouldValidate options ≠ Some true →
      setValue name arg (Some options) st
        = writeValue name (newValueOf name arg st) st
      ∧ fieldErrors (control (setValue name arg (Some options) st))
        = fieldErrors (control st))
  ∧ (∀ name arg st,
      reValidateMode (control st) = OnChange ∨ reValidateMode (control st) = All →
      setValue name arg None st
        = snd (validateField name (writeValue name (newValueOf name arg st) st))).
Proof.
  split.
  - intros name arg options st Hshould.
    assert (setValue name arg (Some options) st
            = writeValue name (newValueOf name arg st) st) as Heq.
    { rewrite setValue_unfold. simpl.
      by destruct (shouldValidate options) as [[]|]. }
    by rewrite Heq.
  - intros name arg st Hmode. rewrite setValue_unfold. simpl.
    by destruct Hmode as [-> | ->].
Qed.

(** ** Submission *)

Lemma no_errors_iff (errors : list string) :
  (length errors =? 0)%nat = true ↔ errors = [].
Proof. rewrite Nat.eqb_eq. by destruct errors. Qed.

Lemma elem_of_ruleKeys st name : name ∈ ruleKeys st ↔ is_Some (getRule name st).
Proof.
  unfold ruleKeys, getRule. rewrite list_elem_of_fmap. split.
  - intros [[key r] [-> Hin]]. apply elem_of_map_to_list in Hin. by exists r.
  - intros [r Hr]. exists (name, r). split; [done|].
    by apply elem_of_map_to_list.
Qed.

(** The map built by the loop: the messages of every key seen whose
    validation gives some, over what was there before. *)
Lemma validateKeys_lookup st keys acc name :
  fst (foldl (validateKey st) acc keys) !! name
  = if bool_decide (name ∈ keys ∧ getCurrentFieldErrors name st ≠ [])
    then Some (getCurrentFieldErrors name st)
    else fst acc !! name.
Proof.
  revert acc. induction keys as [|key keys IH]; intros acc; cbn [foldl].
  - case_bool_decide as Hin; [|done].
    destruct Hin as [Hin _]. by apply elem_of_nil in Hin.
  - rewrite IH. case_bool_decide as Hlater.
    { rewrite bool_decide_eq_true_2; [done|].
      destruct Hlater as [Hin Hne]. split; [by right|done]. }
    unfold validateKey.
    destruct (length (getCurrentFieldErrors key st) =? 0)%nat eqn:Hlen.
    + apply no_errors_iff in Hlen.
      rewrite bool_decide_eq_false_2; [done|].
      intros [[->|Hin]%elem_of_cons Hne]; [done|].
      by apply Hlater.
    + assert (getCurrentFieldErrors key st ≠ []) as Hne.
      { intros Hnil%no_errors_iff. congruence. }
      cbn [fst]. destruct (decide (key = name)) as [->|Hkey].
      * rewrite lookup_insert_eq, bool_decide_eq_true_2; [done|].
        split; [by left|done].
      * rewrite lookup_insert_ne, bool_decide_eq_false_2; [done| |done].
        intros [[->|Hin]%elem_of_cons Hne']; [done|].
        by apply Hlater.
Qed.

Lemma validateKeys_flag st keys acc :
  snd (foldl (validateKey st) acc keys) = true
  ↔ snd acc = true ∨ ∃ name, name ∈ keys ∧ getCurrentFieldErrors name st ≠ [].
Proof.
  revert acc. induction keys as [|key keys IH]; intros acc; cbn [foldl].
  - split; [by left|]. intros [?|(name & Hin & _)]; [done|].
    by apply elem_of_nil in Hin.
  - rewrite IH. unfold validateKey.
    destruct (length (getCurrentFieldErrors key st) =? 0)%nat eqn:Hlen.
    + apply no_errors_iff in Hlen. split.
      * intros [?|(name & Hin & Hne)]; [by left|].
        right. exists name. split; [by right|done].
      * intros [?|(name & Hin & Hne)]; [by left|].
        apply elem_of_cons in Hin as [->|Hin]; [done|].
        right. by exists name.
    + assert (getCurrentFieldErrors key st ≠ []) as Hne.
      { intros Hnil%no_errors_iff. congruence. }
      simpl. split; [|by left].
      intros _. right. exists key. split; [by left|done].
Qed.

(** The error map of a submission holds, for every failing path, its
    messages, and nothing else. *)
Lemma validateAll_lookup st name errors :
  fst (validateAll st) !! name = Some errors
  ↔ failingPath st name ∧ errors = getCurrentFieldErrors name st.
Proof.
  unfold validateAll, failingPath.
  rewrite (validateKeys_lookup st (ruleKeys st) (∅, false) name).
  cbn [fst]. case_bool_decide as Hfail; rewrite elem_of_ruleKeys in Hfail.
  - split; [intros [= <-]; by split|]. by intros [_ ->].
  - rewrite lookup_empty. split; [done|]. by intros [? _].
Qed.

Lemma validateAll_hasErrors st :
  snd (validateAll st) = true ↔ ∃ name, failingPath st name.
Proof.
  unfold validateAll, failingPath.
  rewrite (validateKeys_flag st (ruleKeys st) (∅, false)). simpl. split.
  - intros [?|(name & Hin & Hne)]; [done|].
    exists name. by rewrite <- elem_of_ruleKeys.
  - intros (name & Hin & Hne). right. exists name.
    by rewrite elem_of_ruleKeys.
Qed.

Lemma validateAll_valid st :
  (∀ name, ¬ failingPath st name) → validateAll st = (∅, false).
Proof.
  intros Hvalid.
  destruct (validateAll st) as [errs flag] eqn:Hall. f_equal.
  - apply map_eq. intros name. rewrite lookup_empty.
    destruct (errs !! name) as [errors|] eqn:Hname; [|done].
    exfalso. apply (Hvalid name).
    eapply (proj1 (validateAll_lookup st name errors)).
    by rewrite Hall.
  - destruct flag; [|done]. exfalso.
    destruct (proj1 (validateAll_hasErrors st)) as [name Hname].
    + by rewrite Hall.
    + by apply (Hvalid name).
Qed.

(** C3. A submission with a failing path: [setErrors] gets the map that
    holds exactly the failing paths with their messages, and this map
    becomes the whole error map; [onError], when given, is called with
    the same map; [onSubmit] is not called; [isSubmitting] is never
    written and is false in every state of the run. *)
Theorem handleSubmit_invalid onSubmit onError (st : FormState) :
  (∃ name, failingPath st name) →
  isSubmitting st = false →
  ∃ errs : gmap string (list string),
    (∀ name errors,
       errs !! name = Some errors
       ↔ failingPath st name ∧ errors = getCurrentFieldErrors name st)
    ∧ fieldErrors (control (setErrors errs st)) = errs
    ∧ isSubmitting (setErrors errs st) = false
    ∧ (∀ data, CallOnSubmit data ∉ events (handleSubmit onSubmit onError st))
    ∧ (∀ b, WriteIsSubmitting b ∉ events (handleSubmit onSubmit onError st))
    ∧ isSubmitting (finalState (handleSubmit onSubmit onError st)) = false
    ∧ match onError with
      | Some f =>
          events (handleSubmit onSubmit onError st)
            = [CallSetErrors errs; CallOnError errs]
          ∧ finalState (handleSubmit onSubmit onError st)
            = applyEffect (f errs (setErrors errs st)) (setErrors errs st)
          ∧ completion (handleSubmit onSubmit onError st)
            = notAwaited (effOutcome (f errs (setErrors errs st)))
      | None =>
          events (handleSubmit onSubmit onError st) = [CallSetErrors errs]
          ∧ finalState (handleSubmit onSubmit onError st) = setErrors errs st
          ∧ completion (handleSubmit onSubmit onError st) = Fulfilled
      end.
Proof.
  intros Hfail Hidle. exists (fst (validateAll st)).
  split; [apply validateAll_lookup|].
  apply validateAll_hasErrors in Hfail.
  unfold handleSubmit.
  destruct (validateAll st) as [errs flag] eqn:Hall. simpl in Hfail. subst flag.
  simpl. destruct onError as [f|]; simpl.
  - split_and!; try done.
    + intros data [?|[?|[]%elem_of_nil]%elem_of_cons]%elem_of_cons; done.
    + intros b [?|[?|[]%elem_of_nil]%elem_of_cons]%elem_of_cons; done.
  - split_and!; try done.
    + intros data [?|[]%elem_of_nil]%elem_of_cons; done.
    + intros b [?|[]%elem_of_nil]%elem_of_cons; done.
Qed.

(** C4. A submission in which no path fails: [setErrors] gets the empty
    map, [isSubmitting] is set, [onSubmit] is called with the form values
    (in a state where [isSubmitting] is true and the values are the current
    ones), and [isSubmitting] is cleared afterwards, whether [onSubmit]
    completed, threw or rejected; what [onSubmit] threw or rejected with is
    what the promise of [handleSubmit] rejects with. *)
Theorem handleSubmit_valid onSubmit onError (st : FormState) :
  (∀ name, ¬ failingPath st name) →
  isSubmitting st = false →
  let submitting := withIsSubmitting true (setErrors ∅ st) in
  let e := onSubmit (formValues (control st)) submitting in
  let r := handleSubmit (Some onSubmit) onError st in
  events r = [CallSetErrors ∅; WriteIsSubmitting true;
              CallOnSubmit (formValues (control st)); WriteIsSubmitting false]
  ∧ isSubmitting submitting = true
  ∧ currentValues submitting = currentValues st
  ∧ finalState r = withIsSubmitting false (applyEffect e submitting)
  ∧ isSubmitting (finalState r) = false
  ∧ completion r = awaited (effOutcome e)
  ∧ (∀ x, effOutcome e = Threw x ∨ effOutcome e = Rejected x →
       completion r = RejectedWith x ∧ isSubmitting (finalState r) = false).
Proof.
  intros Hvalid Hidle submitting e r.
  unfold r, handleSubmit. rewrite (validateAll_valid st Hvalid). simpl.
  split_and!; try done.
  fold submitting. fold e. by intros x [-> | ->].
Qed.


(** * Further properties *)

(** ** The validator on edge values *)

Lemma msgPattern_not_required : msgPattern ≠ msgRequired.
Proof. differ_in_prefix. Qed.

Lemma pretty_N_go_length (x : N) (s : string) :
  (String.length s ≤ String.length (pretty_N_go x s))%nat.
Proof.
  revert s. induction (N.lt_wf_0 x) as [x _ IH]. intros s.
  destruct (decide (x = 0)%N) as [->|Hx]; [by rewrite pretty_N_go_0|].
  rewrite pretty_N_go_step by lia.
  etrans; [|apply IH; apply N.div_lt; lia]. simpl. lia.
Qed.

(** The decimal text of an integer is never empty. *)
Lemma pretty_Z_length (n : Z) : (0 < String.length (pretty n))%nat.
Proof.
  assert (∀ p : positive, (0 < String.length (pretty (N.pos p)))%nat) as Hpos.
  { intros p. unfold pretty, pretty_N.
    rewrite decide_False by done.
    rewrite pretty_N_go_step by lia.
    eapply Nat.lt_le_trans; [|apply pretty_N_go_length]. simpl. lia. }
  destruct n as [|p|p]; unfold pretty, pretty_Z.
  - simpl. lia.
  - apply Hpos.
  - rewrite append_cons. simpl. lia.
Qed.

(** The messages of the built-in checks. *)
Lemma elem_of_builtin (x : string) r v s :
  customValidation r v s = None →
  x ∈ getFieldErrors v (Some r) s →
  (x = msgRequired ∧ truthyBool (required r) = true ∧ valueLength v = 0%nat)
  ∨ (x = msgMaxLength (default 0 (maxLength r))
     ∧ maxLengthFails r (valueLength v) = true)
  ∨ (x = msgMinLength (default 0 (minLength r))
     ∧ minLengthFails r (valueLength v) = true)
  ∨ (x = msgPattern ∧ patternFails r v = true).
Proof.
  intros Hcustom. rewrite getFieldErrors_builtin by done.
  destruct (truthyBool (required r) && (valueLength v =? 0)%nat) eqn:Hreq.
  - intros ->%list_elem_of_singleton.
    apply andb_true_iff in Hreq as [? ?%Nat.eqb_eq]. by left.
  - rewrite !elem_of_app. intros [Hin|[Hin|Hin]].
    + destruct (maxLengthFails r (valueLength v)); [|by apply elem_of_nil in Hin].
      apply list_elem_of_singleton in Hin. right; left. by split.
    + destruct (minLengthFails r (valueLength v)); [|by apply elem_of_nil in Hin].
      apply list_elem_of_singleton in Hin. right; right; left. by split.
    + destruct (patternFails r v); [|by apply elem_of_nil in Hin].
      apply list_elem_of_singleton in Hin. right; right; right. by split.
Qed.

(** X1. [required] looks at the text of the value, and the text of a
    boolean or of a number is never empty: for such a value no rule gives
    the required message, and a rule that only says [required] gives no
    message at all, also for [false] and for [0]. *)
Theorem required_accepts_booleans_and_numbers (v : value) :
  (∃ b, v = VBool b) ∨ (∃ n, v = VNum n) →
  (0 < valueLength v)%nat
  ∧ (∀ r s, customValidation r v s = None →
            msgRequired ∉ getFieldErrors v (Some r) s)
  ∧ (∀ s, getFieldErrors v (Some (mkRule (Some true) None None None None)) s = []).
Proof.
  intros Hv.
  assert (0 < valueLength v)%nat as Hlen.
  { destruct Hv as [[[] ->]|[n ->]]; unfold valueLength; simpl; try lia.
    apply pretty_Z_length. }
  split_and!; [done| |].
  - intros r s Hcustom Hin.
    apply (elem_of_builtin _ _ _ _ Hcustom) in Hin
      as [(_ & _ & Hzero)|[[Heq _]|[[Heq _]|[Heq _]]]].
    + lia.
    + symmetry in Heq. by eapply msgMaxLength_not_required.
    + symmetry in Heq. by eapply msgMinLength_not_required.
    + by apply msgPattern_not_required.
  - intros s. rewrite getFieldErrors_builtin by done. simpl.
    replace (valueLength v =? 0)%nat with false; [done|].
    symmetry. apply Nat.eqb_neq. lia.
Qed.

(** X2. A missing value is matched against the text [undefined]: for a
    nullish value, [undefined] or [null] alike, that is not caught by
    [required], the pattern message is given exactly when the rule has a
    truthy pattern that the text [undefined] does not match. *)
Theorem nullish_value_tested_as_undefined (v : value) r s :
  isNullish v = true →
  customValidation r v s = None →
  truthyBool (required r) = false →
  msgPattern ∈ getFieldErrors v (Some r) s
  ↔ ∃ p, pattern r = Some p ∧ truthyPattern (Some p) = true
         ∧ RegExp_test (RegExp_new p) "undefined" = false.
Proof.
  intros Hnull Hcustom Hreq.
  assert (testInput v = "undefined") as Htext.
  { unfold testInput, optToString. by rewrite Hnull. }
  assert (patternFails r v = true
          ↔ ∃ p, pattern r = Some p ∧ truthyPattern (Some p) = true
                 ∧ RegExp_test (RegExp_new p) "undefined" = false) as Hfails.
  { unfold patternFails. rewrite Htext.
    destruct (pattern r) as [p|]; simpl.
    - rewrite andb_true_iff, negb_true_iff. split.
      + intros [? ?]. by exists p.
      + by intros (? & [= <-] & ? & ?).
    - split; [done|]. by intros (? & ? & _). }
  rewrite <- Hfails. split.
  - intros Hin. apply (elem_of_builtin _ _ _ _ Hcustom) in Hin
      as [(Heq & _)|[[Heq _]|[[Heq _]|[_ Hp]]]]; [| | |done].
    + by apply msgPattern_not_required in Heq.
    + symmetry in Heq. by apply msgMaxLength_not_pattern in Heq.
    + symmetry in Heq. by apply msgMinLength_not_pattern in Heq.
  - intros Hp. rewrite getFieldErrors_builtin by done.
    rewrite Hreq, Hp. simpl. rewrite !elem_of_app. right; right.
    by apply list_elem_of_singleton.
Qed.

(** X3. A field that is not required is still measured when it is empty:
    with a positive [minLength], a value whose text is empty gets the
    too-short message. *)
Theorem empty_optional_value_is_too_short (v : value) r s (m : Z) :
  customValidation r v s = None →
  truthyBool (required r) = false →
  valueLength v = 0%nat →
  minLength r = Some m → 0 < m →
  msgMinLength m ∈ getFieldErrors v (Some r) s.
Proof.
  intros Hcustom Hreq Hlen Hmin Hm.
  rewrite getFieldErrors_builtin by done.
  rewrite Hreq, minLengthFails_spec, Hmin, Hlen. simpl.
  rewrite bool_decide_eq_true_2 by lia.
  rewrite !elem_of_app. right; left. by apply list_elem_of_singleton.
Qed.

(** X4. Negative bounds: when the required check does not fire, a negative
    [maxLength] rejects every value with the too-long message, and a
    negative [minLength] never gives a too-short message. *)
Theorem negative_bounds (v : value) r s (m : Z) :
  customValidation r v s = None →
  truthyBool (required r) && (valueLength v =? 0)%nat = false →
  m < 0 →
  (maxLength r = Some m → msgMaxLength m ∈ getFieldErrors v (Some r) s)
  ∧ (minLength r = Some m → ∀ n, msgMinLength n ∉ getFieldErrors v (Some r) s).
Proof.
  intros Hcustom Hreq Hm. split.
  - intros Hmax. rewrite getFieldErrors_builtin by done.
    rewrite Hreq, maxLengthFails_spec, Hmax.
    rewrite bool_decide_eq_true_2 by lia.
    rewrite !elem_of_app. left. by apply list_elem_of_singleton.
  - intros Hmin n Hin. apply (elem_of_builtin _ _ _ _ Hcustom) in Hin
      as [(Heq & _)|[[Heq _]|[[_ Hfails]|[Heq _]]]].
    + by apply msgMinLength_not_required in Heq.
    + symmetry in Heq. by apply msgMaxLength_not_min in Heq.
    + rewrite minLengthFails_spec, Hmin in Hfails.
      apply bool_decide_eq_true in Hfails. lia.
    + by apply msgMinLength_not_pattern in Heq.
Qed.

(** X5. The built-in checks give at most three messages, no message twice,
    and the required message only alone. *)
Theorem builtin_errors_shape (v : value) r s :
  customValidation r v s = None →
  (length (getFieldErrors v (Some r) s) ≤ 3)%nat
  ∧ NoDup (getFieldErrors v (Some r) s)
  ∧ (msgRequired ∈ getFieldErrors v (Some r) s →
     getFieldErrors v (Some r) s = [msgRequired]).
Proof.
  intros Hcustom. rewrite getFieldErrors_builtin by done.
  destruct (truthyBool (required r) && (valueLength v =? 0)%nat).
  { split_and!; [simpl; lia|apply NoDup_singleton|done]. }
  pose proof (msgMaxLength_not_min (default 0 (maxLength r))
                (default 0 (minLength r))) as Hmm.
  pose proof (msgMaxLength_not_pattern (default 0 (maxLength r))) as Hmp.
  pose proof (msgMinLength_not_pattern (default 0 (minLength r))) as Hnp.
  pose proof (msgMaxLength_not_required (default 0 (maxLength r))) as Hmr.
  pose proof (msgMinLength_not_required (default 0 (minLength r))) as Hnr.
  pose proof msgPattern_not_required as Hpr.
  destruct (maxLengthFails r (valueLength v)),
           (minLengthFails r (valueLength v)), (patternFails r v); simpl;
    (split_and!; [lia| |]);
    try (intros Hin; exfalso;
         repeat (apply elem_of_cons in Hin as [Hin|Hin]; [congruence|]);
         by apply elem_of_nil in Hin);
    repeat (apply NoDup_cons; split;
            [intros Hin;
             repeat (apply elem_of_cons in Hin as [Hin|Hin]; [congruence|]);
             by apply elem_of_nil in Hin|]);
    apply NoDup_nil_2.
Qed.

(** ** [isValid] *)

Lemma isValid_spec st :
  isValid st = true
  ↔ ∀ name errors, getError name st = Some errors → errors = [].
Proof.
  unfold isValid, getError. rewrite negb_true_iff. split.
  - intros Hnone name errors Hget.
    destruct errors as [|msg errors]; [done|]. exfalso.
    assert (existsb (fun entry : string * list string =>
                       negb (length (snd entry) =? 0)%nat)
                    (map_to_list (fieldErrors (control st))) = true) as Hsome.
    { apply existsb_exists. exists (name, msg :: errors). split; [|done].
      by apply list_elem_of_In, elem_of_map_to_list. }
    congruence.
  - intros Hall. apply not_true_is_false.
    intros [[name errors] [Hin Hmsg]]%existsb_exists.
    apply list_elem_of_In, elem_of_map_to_list in Hin.
    apply Hall in Hin. by subst errors.
Qed.

(** X6. [isValid] is true exactly when no path has a message.  It is true
    for a new form and after [reset]; and when it is true, validating a
    field leaves it true exactly when the field passes. *)
Theorem isValid_properties :
  (∀ st, isValid st = true
         ↔ ∀ name errors, getError name st = Some errors → errors = [])
  ∧ (∀ p h, isValid (useForm p h) = true)
  ∧ (∀ newDefaults st, isValid (reset newDefaults st) = true)
  ∧ (∀ name st, isValid st = true →
       (isValid (snd (validateField name st)) = true
        ↔ getCurrentFieldErrors name st = [])).
Proof.
  split_and!.
  - apply isValid_spec.
  - intros p h. apply isValid_spec. intros name errors.
    unfold getError. rewrite useForm_unfold. simpl.
    destruct (p ≫= propsDefaultValues);
      [rewrite createControl_supplied|rewrite createControl_absent];
      simpl; by rewrite lookup_empty.
  - intros l st. apply isValid_spec. intros name errors.
    unfold getError. rewrite reset_unfold. simpl. by rewrite lookup_empty.
  - intros name st Hvalid. rewrite isValid_spec in Hvalid. rewrite isValid_spec.
    unfold validateField.
    destruct (length (getCurrentFieldErrors name st) =? 0)%nat eqn:Hlen.
    + apply no_errors_iff in Hlen. split; [done|]. intros _ other errors.
      unfold getError, clearError. simpl.
      intros [_ Hget]%lookup_delete_Some. by eapply Hvalid.
    + assert (getCurrentFieldErrors name st ≠ []) as Hne.
      { intros Hnil%no_errors_iff. congruence. }
      split; [|done]. intros Hall. exfalso. apply Hne.
      apply (Hall name). unfold getError, setError. simpl.
      apply lookup_insert_eq.
Qed.

(** X7. Whatever the callbacks, the first thing [handleSubmit] does is
    [setErrors].  The map it sets has no entry for a path that passes or has
    no rule, so that messages stored by hand with [setError] are dropped by
    a submission; and with this map the form is valid exactly when no path
    with a rule fails. *)
Theorem handleSubmit_sets_validity onSubmit onError (st : FormState) :
  ∃ errs rest,
    events (handleSubmit onSubmit onError st) = CallSetErrors errs :: rest
    ∧ (∀ name, ¬ failingPath st name → getError name (setErrors errs st) = None)
    ∧ (isValid (setErrors errs st) = true ↔ ∀ name, ¬ failingPath st name).
Proof.
  assert (∀ name, ¬ failingPath st name →
            getError name (setErrors (fst (validateAll st)) st) = None) as Hdropped.
  { intros name Hpass. unfold getError, setErrors. simpl.
    destruct (fst (validateAll st) !! name) as [errors|] eqn:Hget; [|done].
    by apply validateAll_lookup in Hget as [? _]. }
  assert (isValid (setErrors (fst (validateAll st)) st) = true
          ↔ ∀ name, ¬ failingPath st name) as Hvalid.
  { rewrite isValid_spec. unfold getError, setErrors. simpl. split.
    - intros Hall name Hfail.
      assert (fst (validateAll st) !! name = Some (getCurrentFieldErrors name st))
        as Hget by (by apply validateAll_lookup).
      apply Hall in Hget. by destruct Hfail.
    - intros Hnone name errors [Hfail _]%validateAll_lookup.
      by apply Hnone in Hfail. }
  unfold handleSubmit. destruct (validateAll st) as [errs flag].
  simpl in Hvalid, Hdropped.
  destruct flag, onError, onSubmit; simpl; by eexists _, _.
Qed.

(** X8. Validating a field twice is validating it once: the same messages
    are returned and the state is the same. *)
Theorem validateField_idempotent (name : string) (st : FormState) :
  validateField name (snd (validateField name st)) = validateField name st.
Proof.
  unfold validateField.
  destruct (length (getCurrentFieldErrors name st) =? 0)%nat eqn:Hlen; simpl.
  - change (getCurrentFieldErrors name (clearError name st))
      with (getCurrentFieldErrors name st).
    rewrite Hlen. f_equal. unfold clearError, withControl, withFieldErrors. simpl.
    by rewrite delete_delete_eq.
  - change (getCurrentFieldErrors name
              (setError name (getCurrentFieldErrors name st) st))
      with (getCurrentFieldErrors name st).
    rewrite Hlen. f_equal. unfold setError, withControl, withFieldErrors. simpl.
    by rewrite insert_insert_eq.
Qed.

(** ** [unregister] *)

Lemma prop_deleteKey (o : value) (key : string) :
  prop (deleteKey o key) key = VUndefined.
Proof.
  destruct o as [| | | | |items|fields]; simpl; try done.
  - destruct (indexOfKey key) as [i|] eqn:Hi; simpl; rewrite Hi; [|done].
    destruct (decide (i < length items)%nat) as [Hlt|Hge].
    + by rewrite list_lookup_insert_eq.
    + rewrite list_insert_ge by lia.
      by rewrite (lookup_ge_None_2 items i) by lia.
  - by rewrite lookup_delete_eq.
Qed.

(** Below a value that is not a container there is nothing to read. *)
Lemma baseGet_leaf (o : value) (path : list string) :
  isObject o = false → path ≠ [] → baseGet o path = VUndefined.
Proof.
  intros Hleaf Hpath. destruct path as [|key rest]; [done|]. simpl.
  destruct (isNullish o); [done|].
  replace (prop o key) with VUndefined by (by destruct o).
  by destruct rest.
Qed.

Lemma baseGet_baseUnset (path : list string) (o : value) :
  path ≠ [] → baseGet (baseUnset o path) path = VUndefined.
Proof.
  revert o. induction path as [|key rest IH]; intros o Hpath; [done|].
  destruct rest as [|next rest'].
  - simpl. destruct (isNullish (deleteKey o key)); [done|].
    apply prop_deleteKey.
  - change (baseUnset o (key :: next :: rest'))
      with (if isObject (prop o key)
            then assign o key (baseUnset (prop o key) (next :: rest'))
            else o).
    change (baseGet ?x (key :: next :: rest'))
      with (if isNullish x then VUndefined else baseGet (prop x key) (next :: rest')).
    destruct (isObject (prop o key)) eqn:Hchild.
    + assert (assignable o key = true) as Hassign.
      { destruct o as [| | | | |items|fields]; simpl in *; try done.
        unfold isIndex. by destruct (indexOfKey key). }
      destruct (isNullish _); [done|].
      rewrite prop_assign by done. by apply IH.
    + destruct (isNullish o); [done|]. by apply baseGet_leaf.
Qed.

(** X9. After [unregister(path)] the value at the path reads as undefined,
    and the rule map, the error map and the revalidation mode are what they
    were: the rule and the errors of the path are still there. *)
Theorem unregister_removes_value_only (name : string) (st : FormState) :
  getValue name (unregister name st) = VUndefined
  ∧ rules (control (unregister name st)) = rules (control st)
  ∧ fieldErrors (control (unregister name st)) = fieldErrors (control st)
  ∧ getRule name (unregister name st) = getRule name st
  ∧ getError name (unregister name st) = getError name st
  ∧ isValid (unregister name st) = isValid st.
Proof.
  split_and!; try done.
  unfold getValue, unregister, currentValues. simpl.
  rewrite deref_insert_eq. unfold get, unset.
  destruct (stringToPath name) as [|key rest] eqn:Hpath; [done|].
  by apply baseGet_baseUnset.
Qed.










(** ** [setValue] and the other fields *)




(** ** Dirtiness of the whole form *)


(** ** The default values under the calls of the control surface *)



(** ** More on submission *)

(** X16. [handleSubmit] does not look at [isSubmitting]: when no path
    fails, [onSubmit] is called whatever the flag is at the call, also when
    it is true because another submission is in flight, and the flag is
    false when this submission ends. *)
Theorem handleSubmit_not_guarded onSubmit onError (flag : bool) (st : FormState) :
  (∀ name, ¬ failingPath st name) →
  CallOnSubmit (formValues (control st))
    ∈ events (handleSubmit (Some onSubmit) onError (withIsSubmitting flag st))
  ∧ isSubmitting (finalState (handleSubmit (Some onSubmit) onError
                                (withIsSubmitting flag st))) = false.
Proof.
  intros Hvalid. unfold handleSubmit.
  rewrite (validateAll_valid (withIsSubmitting flag st) Hvalid). simpl.
  split; [|done].
  do 2 apply list_elem_of_further. apply list_elem_of_here.
Qed.

(** X17. [onError] is called without [await]: when a path fails and the
    promise returned by [onError] rejects, the promise of [handleSubmit] is
    fulfilled all the same; only a throw of [onError] makes it reject. *)
Theorem onError_rejection_not_propagated onSubmit onError (st : FormState) :
  (∃ name, failingPath st name) →
  ∃ errs,
    events (handleSubmit onSubmit (Some onError) st)
      = [CallSetErrors errs; CallOnError errs]
    ∧ (∀ e, effOutcome (onError errs (setErrors errs st)) = Rejected e →
            completion (handleSubmit onSubmit (Some onError) st) = Fulfilled)
    ∧ (∀ e, effOutcome (onError errs (setErrors errs st)) = Threw e →
            completion (handleSubmit onSubmit (Some onError) st) = RejectedWith e).
Proof.
  intros Hfail%validateAll_hasErrors. unfold handleSubmit.
  destruct (validateAll st) as [errs flag]. simpl in Hfail. subst flag. simpl.
  exists errs. split_and!; [done| |]; by intros e ->.
Qed.

(** ** The field binder *)

(** X18. When a bound field is unmounted, the error map is never touched;
    the rule of the path is removed unless [shouldUnregisterRule] is false;
    the value of the path is removed only if [shouldUnregister] is true.
    With the default options the value and a stale error stay, the rule
    goes. *)
Theorem unmounted_effects (p : ControllerProps) (st : FormState) :
  fieldErrors (control (unmounted p st)) = fieldErrors (control st)
  ∧ (shouldUnregisterRule p ≠ Some false →
     getRule (propName p) (unmounted p st) = None
     ∧ ∀ other, other ≠ propName p → getRule other (unmounted p st) = getRule other st)
  ∧ (shouldUnregisterRule p = Some false →
     rules (control (unmounted p st)) = rules (control st))
  ∧ (shouldUnregister p ≠ Some true → heap (unmounted p st) = heap st)
  ∧ (shouldUnregister p = Some true →
     getValue (propName p) (unmounted p st) = VUndefined).
Proof.
  unfold unmounted. split_and!.
  - by destruct (truthyBool (shouldUnregister p)),
                (default true (shouldUnregisterRule p)).
  - intros Hrule.
    assert (default true (shouldUnregisterRule p) = true) as ->.
    { by destruct (shouldUnregisterRule p) as [[]|]. }
    unfold getRule, clearRule. simpl. split.
    + apply lookup_delete_eq.
    + intros other Hother. rewrite lookup_delete_ne by done.
      by destruct (truthyBool (shouldUnregister p)).
  - intros ->. simpl. by destruct (truthyBool (shouldUnregister p)).
  - intros Hvalue.
    assert (truthyBool (shouldUnregister p) = false) as ->.
    { by destruct (shouldUnregister p) as [[]|]. }
    by destruct (default true (shouldUnregisterRule p)).
  - intros ->. simpl.
    assert (getValue (propName p) (unregister (propName p) st) = VUndefined) as Hgone.
    { unfold getValue, unregister, currentValues. simpl.
      rewrite deref_insert_eq. unfold get, unset.
      destruct (stringToPath (propName p)) as [|key rest] eqn:Hpath; [done|].
      by apply baseGet_baseUnset. }
    by destruct (default true (shouldUnregisterRule p)).
Qed.

(** X19. Rules are kept per path, not per bound field: when two fields are
    bound to the same path and the first is unmounted with the default
    options, the rule registered by the second, which is still mounted, is
    gone, and a submission no longer validates the path. *)
Theorem shared_path_rule_lost (p1 p2 : ControllerProps) (st : FormState) :
  propName p1 = propName p2 →
  shouldUnregisterRule p1 ≠ Some false →
  getRule (propName p2) (unmounted p1 (mounted p2 (mounted p1 st))) = None
  ∧ ¬ failingPath (unmounted p1 (mounted p2 (mounted p1 st))) (propName p2).
Proof.
  intros Hname Hrule.
  assert (getRule (propName p2) (unmounted p1 (mounted p2 (mounted p1 st))) = None)
    as Hgone.
  { unfold unmounted.
    assert (default true (shouldUnregisterRule p1) = true) as ->.
    { by destruct (shouldUnregisterRule p1) as [[]|]. }
    unfold getRule, clearRule. simpl. rewrite Hname. apply lookup_delete_eq. }
  split; [done|]. intros [[r Hr] _]. congruence.
Qed.

Lemma fieldEvent_onSubmit_mode (p : ControllerProps) (st : FormState) (e : FieldEvent) :
  reValidateMode (control st) = OnSubmit →
  reValidateMode (control (fieldEvent p st e)) = OnSubmit
  ∧ fieldErrors (control (fieldEvent p st e)) ⊆ fieldErrors (control st)
  ∧ rules (control (fieldEvent p st e)) = rules (control st).
Proof.
  intros Hmode. destruct e as [v options| |]; simpl.
  - unfold onChange. rewrite setValue_unfold, Hmode. simpl.
    rewrite andb_false_r. by split_and!.
  - unfold onFocus. destruct (negb _); simpl; [done|].
    split_and!; [done| |done]. apply delete_subseteq.
  - unfold onBlur. rewrite Hmode. simpl. done.
Qed.

(** X20. In the mode [onSubmit], what happens to a bound field never adds
    a message: after any sequence of change, focus and blur events every
    entry of the error map was there before, with the same messages, and
    the rules are unchanged. *)
Theorem onSubmit_mode_events_add_no_error (p : ControllerProps)
    (es : list FieldEvent) (st : FormState) :
  reValidateMode (control st) = OnSubmit →
  fieldErrors (control (fieldEvents p es st)) ⊆ fieldErrors (control st)
  ∧ rules (control (fieldEvents p es st)) = rules (control st)
  ∧ reValidateMode (control (fieldEvents p es st)) = OnSubmit.
Proof.
  unfold fieldEvents. revert st.
  induction es as [|e es IH]; intros st Hmode; [done|]. cbn [foldl].
  destruct (fieldEvent_onSubmit_mode p st e Hmode) as (Hmode' & Hsub & Hrules).
  destruct (IH _ Hmode') as (Hsub' & -> & ->).
  split_and!; [|done..]. by etrans.
Qed.

(** X21. In the modes [onBlur] and [all], leaving a field validates it
    whatever focusing it had cleared: blur after focus gives the state that
    blur alone gives. *)
Theorem blur_after_focus (p : ControllerProps) (st : FormState) :
  reValidateMode (control st) = OnBlur ∨ reValidateMode (control st) = All →
  onBlur p (onFocus p st) = onBlur p st.
Proof.
  intros Hmode. unfold onFocus.
  destruct (negb (default true (shouldClearErrorOnFocus p))); [done|].
  unfold onBlur.
  change (reValidateMode (control (clearError (propName p) st)))
    with (reValidateMode (control st)).
  assert (bool_decide (reValidateMode (control st) = All)
          || bool_decide (reValidateMode (control st) = OnBlur) = true) as ->.
  { by destruct Hmode as [-> | ->]. }
  unfold validateField.
  change (getCurrentFieldErrors (propName p) (clearError (propName p) st))
    with (getCurrentFieldErrors (propName p) st).
  destruct (length _ =? 0)%nat; simpl;
    unfold clearError, setError, withControl, withFieldErrors; simpl.
  - by rewrite delete_delete_eq.
  - by rewrite insert_delete_eq.
Qed.

(** ** Reading back what was written *)




(** X24. A submission stores for every path what [validateField] would
    store for it: the messages of a failing path, and no entry for a path
    that passes or has no rule. *)
Theorem handleSubmit_agrees_with_validateField onSubmit onError (st : FormState) :
  ∃ errs rest,
    events (handleSubmit onSubmit onError st) = CallSetErrors errs :: rest
    ∧ ∀ name,
        getError name (setErrors errs st)
        = getError name (snd (validateField name st)).
Proof.
  assert (∀ name,
            getError name (setErrors (fst (validateAll st)) st)
            = getError name (snd (validateField name st))) as Hsame.
  { intros name. unfold validateField, getError at 1, setErrors. simpl.
    destruct (length (getCurrentFieldErrors name st) =? 0)%nat eqn:Hlen;
      unfold getError; simpl.
    - apply no_errors_iff in Hlen. rewrite lookup_delete_eq.
      destruct (fst (validateAll st) !! name) as [errors|] eqn:Hget; [|done].
      by apply validateAll_lookup in Hget as [[_ Hne] _].
    - assert (getCurrentFieldErrors name st ≠ []) as Hne.
      { intros Hnil%no_errors_iff. congruence. }
      rewrite lookup_insert_eq. apply validateAll_lookup. split; [|done].
      split; [|done]. unfold getCurrentFieldErrors in Hne.
      by destruct (getRule name st). }
  unfold handleSubmit. destruct (validateAll st) as [errs flag]. simpl in Hsame.
  destruct flag, onError, onSubmit; simpl; by eexists _, _.
Qed.

End Library.

(** * The properties on the example forms

    The string patterns of the examples have no metacharacters, so
    [literalRegExp] stands for the parser of regular expressions. *)

Lemma getFieldErrors_precedence_witness :
  getFieldErrors literalRegExp (VStr "")
    (Some (mkRule (Some true) (Some 3) None (Some alwaysTaken) None)) VUndefined
  = ["Taken"]
  ∧ getFieldErrors literalRegExp VNull
      (Some (mkRule (Some true) (Some 3) None None (Some (PString "x")))) VUndefined
    = ["Field is required!"].
Proof.
  destruct (getFieldErrors_precedence literalRegExp) as (_ & Hcustom & Hrequired & _).
  split.
  - apply (Hcustom _ _ _ alwaysTaken); reflexivity.
  - apply Hrequired; reflexivity.
Defined.

Lemma getFieldErrors_builtin_order_witness :
  getFieldErrors literalRegExp (VStr "abcd")
    (Some (mkRule (Some true) (Some 5) (Some 3) None (Some (PString "x")))) VUndefined
  = ["The field may not be longer than 3 characters!";
     "The field may not be shorter than 5 characters!";
     "The field did not match the expected pattern!"].
Proof.
  rewrite (proj1 (getFieldErrors_builtin_order literalRegExp)).
  - reflexivity.
  - reflexivity.
  - intros [_ Hlen]. discriminate Hlen.
Defined.

Lemma getFieldErrors_zero_bound_witness :
  getFieldErrors literalRegExp (VStr "abc")
    (Some (mkRule None (Some 5) (Some 0) None None)) VUndefined
  = ["The field may not be shorter than 5 characters!"]
  ∧ msgMaxLength 0 ∉
      getFieldErrors literalRegExp (VStr "abc")
        (Some (mkRule None (Some 5) (Some 0) None None)) VUndefined.
Proof.
  split; [reflexivity|].
  apply (proj1 (getFieldErrors_zero_bound literalRegExp)). reflexivity.
Defined.

Lemma handleSubmit_invalid_witness :
  ∃ errs : gmap string (list string),
    errs !! "a" = Some ["Field is required!"]
    ∧ events (handleSubmit literalRegExp (Some returning) (Some returning)
                (formOver emptyFieldStore))
      = [CallSetErrors errs; CallOnError errs]
    ∧ isSubmitting (finalState (handleSubmit literalRegExp (Some returning)
                                  (Some returning) (formOver emptyFieldStore))) = false.
Proof.
  destruct (handleSubmit_invalid literalRegExp (Some returning) (Some returning)
              (formOver emptyFieldStore))
    as (errs & Hlookup & _ & _ & _ & _ & Hfinal & Hevents & _).
  - exists "a". split; [by eexists|]. vm_compute. discriminate.
  - reflexivity.
  - exists errs. split_and!; [|done|done].
    apply Hlookup. split; [|reflexivity].
    split; [by eexists|]. vm_compute. discriminate.
Defined.

Lemma no_failing_path_filled : ∀ name, ¬ failingPath literalRegExp (formOver filledFieldStore) name.
Proof.
  intros name [[r Hr] Herrors]. unfold getRule, formOver, setRule in Hr.
  cbn [control rules withControl withRules] in Hr.
  apply lookup_insert_Some in Hr as [[<- <-]|[_ Hr]].
  - by apply Herrors.
  - rewrite useForm_unfold in Hr. cbn [control mbind option_bind propsDefaultValues] in Hr.
    rewrite createControl_supplied in Hr.
    change ((∅ : gmap string ControlRule) !! name = Some r) in Hr.
    by rewrite lookup_empty in Hr.
Qed.

Lemma handleSubmit_valid_witness :
  events (handleSubmit literalRegExp (Some (throwing (VStr "failed"))) None
            (formOver filledFieldStore))
  = [CallSetErrors ∅; WriteIsSubmitting true; CallOnSubmit 1%nat; WriteIsSubmitting false]
  ∧ completion (handleSubmit literalRegExp (Some (throwing (VStr "failed"))) None
                  (formOver filledFieldStore)) = RejectedWith (VStr "failed")
  ∧ isSubmitting (finalState (handleSubmit literalRegExp
                                (Some (throwing (VStr "failed"))) None
                                (formOver filledFieldStore))) = false
  ∧ completion (handleSubmit literalRegExp (Some (rejecting (VStr "refused"))) None
                  (formOver filledFieldStore)) = RejectedWith (VStr "refused")
  ∧ isSubmitting (finalState (handleSubmit literalRegExp
                                (Some (rejecting (VStr "refused"))) None
                                (formOver filledFieldStore))) = false.
Proof.
  destruct (handleSubmit_valid literalRegExp (throwing (VStr "failed")) None
              (formOver filledFieldStore) no_failing_path_filled eq_refl)
    as (Hevents & _ & _ & _ & Hfinal & Hcompletion & _).
  destruct (handleSubmit_valid literalRegExp (rejecting (VStr "refused")) None
              (formOver filledFieldStore) no_failing_path_filled eq_refl)
    as (_ & _ & _ & _ & Hfinal' & Hcompletion' & _).
  split_and!;
    [exact Hevents|exact Hcompletion|exact Hfinal|exact Hcompletion'|exact Hfinal'].
Defined.

Lemma validateField_spec_witness :
  validateField literalRegExp "a" (formOver emptyFieldStore)
  = (["Field is required!"],
     setError "a" ["Field is required!"] (formOver emptyFieldStore))
  ∧ fst (validateField literalRegExp "b" (formOver emptyFieldStore)) = []
  ∧ getError "b" (snd (validateField literalRegExp "b" (formOver emptyFieldStore))) = None.
Proof.
  split.
  - apply (proj1 (proj2 (validateField_spec literalRegExp "a" (formOver emptyFieldStore)))).
    vm_compute. discriminate.
  - apply (proj2 (proj2 (proj2 (validateField_spec literalRegExp "b"
                                    (formOver emptyFieldStore))))).
    reflexivity.
Defined.




Lemma setValue_explicit_options_witness :
  getError "a"
    (setValue literalRegExp "a" (Direct (VStr "")) (Some (mkOptions None (Some true)))
       (formOver filledFieldStore)) = None
  ∧ getError "a"
      (setValue literalRegExp "a" (Direct (VStr "")) None (formOver filledFieldStore))
    = Some ["Field is required!"].
Proof.
  destruct (setValue_explicit_options literalRegExp) as [Hexplicit Homitted].
  split.
  - unfold getError.
    rewrite (proj2 (Hexplicit "a" (Direct (VStr "")) (mkOptions None (Some true))
                      (formOver filledFieldStore) ltac:(discriminate))).
    reflexivity.
  - rewrite Homitted by (left; reflexivity). vm_compute. reflexivity.
Defined.

(** * The further properties on the example forms *)

Lemma required_accepts_booleans_and_numbers_witness :
  getFieldErrors literalRegExp (VBool false) (Some requiredRule) VUndefined = []
  ∧ getFieldErrors literalRegExp (VNum 0) (Some requiredRule) VUndefined = [].
Proof.
  split.
  - apply (required_accepts_booleans_and_numbers literalRegExp (VBool false)).
    left. by exists false.
  - apply (required_accepts_booleans_and_numbers literalRegExp (VNum 0)).
    right. by exists 0.
Defined.

Lemma nullish_value_tested_as_undefined_witness :
  msgPattern ∈
    getFieldErrors literalRegExp VNull
      (Some (mkRule None None None None (Some (PString "null")))) VUndefined
  ∧ getFieldErrors literalRegExp VNull
      (Some (mkRule None None None None (Some (PRegExp lowerCaseWord)))) VUndefined
    = [].
Proof.
  split; [|reflexivity].
  apply (nullish_value_tested_as_undefined literalRegExp VNull
           (mkRule None None None None (Some (PString "null"))) VUndefined);
    [reflexivity..|].
  exists (PString "null"). split_and!; reflexivity.
Defined.

Lemma empty_optional_value_is_too_short_witness :
  msgMinLength 3 ∈
    getFieldErrors literalRegExp (VStr "")
      (Some (mkRule None (Some 3) None None None)) VUndefined.
Proof.
  apply (empty_optional_value_is_too_short literalRegExp (VStr "")
           (mkRule None (Some 3) None None None) VUndefined 3);
    [reflexivity..|lia].
Defined.

Lemma negative_bounds_witness :
  msgMaxLength (-1) ∈
    getFieldErrors literalRegExp (VStr "")
      (Some (mkRule None None (Some (-1)) None None)) VUndefined.
Proof.
  apply (negative_bounds literalRegExp (VStr "")
           (mkRule None None (Some (-1)) None None) VUndefined (-1));
    [reflexivity|reflexivity|lia|reflexivity].
Defined.

Lemma builtin_errors_shape_witness :
  NoDup (getFieldErrors literalRegExp (VStr "abcd")
           (Some (mkRule (Some true) (Some 5) (Some 3) None (Some (PString "x"))))
           VUndefined).
Proof.
  apply (builtin_errors_shape literalRegExp (VStr "abcd")
           (mkRule (Some true) (Some 5) (Some 3) None (Some (PString "x")))
           VUndefined).
  reflexivity.
Defined.







Lemma handleSubmit_not_guarded_witness :
  isSubmitting (finalState (handleSubmit literalRegExp (Some returning) None
                              (withIsSubmitting true (formOver filledFieldStore))))
  = false.
Proof.
  apply (handleSubmit_not_guarded literalRegExp returning None true
           (formOver filledFieldStore) no_failing_path_filled).
Defined.

Lemma onError_rejection_not_propagated_witness :
  completion (handleSubmit literalRegExp (Some returning)
                (Some (rejecting (VStr "refused"))) (formOver emptyFieldStore))
  = Fulfilled.
Proof.
  destruct (onError_rejection_not_propagated literalRegExp (Some returning)
              (rejecting (VStr "refused")) (formOver emptyFieldStore))
    as (errs & _ & Hrejected & _).
  - exists "a". split; [by eexists|]. vm_compute. discriminate.
  - by apply (Hrejected (VStr "refused")).
Defined.

Lemma shared_path_rule_lost_witness :
  getRule "a" (unmounted fieldA (mounted fieldA (mounted fieldA
                 (useForm None ∅)))) = None.
Proof.
  apply (shared_path_rule_lost literalRegExp fieldA fieldA (useForm None ∅)).
  - reflexivity.
  - discriminate.
Defined.

Lemma onSubmit_mode_events_add_no_error_witness :
  rules (control (fieldEvents literalRegExp fieldA
                    [Change (Direct (VStr "")) None; Blur; Focus]
                    (submitForm filledFieldStore)))
  = rules (control (submitForm filledFieldStore)).
Proof.
  apply (onSubmit_mode_events_add_no_error literalRegExp fieldA
           [Change (Direct (VStr "")) None; Blur; Focus]
           (submitForm filledFieldStore)).
  reflexivity.
Defined.

Lemma blur_after_focus_witness :
  onBlur literalRegExp fieldA (onFocus fieldA (blurForm emptyFieldStore))
  = onBlur literalRegExp fieldA (blurForm emptyFieldStore).
Proof.
  apply (blur_after_focus literalRegExp fieldA (blurForm emptyFieldStore)).
  left. reflexivity.
Defined.


